(** * GameCube controller emulation: the move queue, the move-code decoder,
      the command dispatcher, the receive and the transmit routine of
      [arduino/gamecube_control/gamecube_control.ino]. *)

From Stdlib Require Import ZArith List Bool Lia ZifyNat.
Import ListNotations.
Open Scope Z_scope.

(** ** Controller state *)

(** [GCStatus]: eight [unsigned char] fields in wire order. *)
Record GCStatus : Set := mkGCStatus {
  data1 : Z;     (* bits: 0, 0, 0, start, y, x, b, a *)
  data2 : Z;     (* bits: 1, L, R, Z, Dup, Ddown, Dright, Dleft *)
  stick_x : Z;   (* 128 is center for stick and cstick *)
  stick_y : Z;
  cstick_x : Z;
  cstick_y : Z;
  left : Z;      (* left/right trigger analog *)
  right : Z
}.

Definition initial_gc_status : GCStatus := mkGCStatus 0 0 128 128 128 128 0 0.

Definition set_data1 (s : GCStatus) (v : Z) : GCStatus :=
  mkGCStatus v (data2 s) (stick_x s) (stick_y s) (cstick_x s) (cstick_y s) (left s) (right s).
Definition set_stick_x (s : GCStatus) (v : Z) : GCStatus :=
  mkGCStatus (data1 s) (data2 s) v (stick_y s) (cstick_x s) (cstick_y s) (left s) (right s).
Definition set_stick_y (s : GCStatus) (v : Z) : GCStatus :=
  mkGCStatus (data1 s) (data2 s) (stick_x s) v (cstick_x s) (cstick_y s) (left s) (right s).

(** The struct as [gc_send] reads it: [sizeof(gc_status)] bytes, in field order. *)
Definition gc_status_bytes (s : GCStatus) : list Z :=
  [data1 s; data2 s; stick_x s; stick_y s; cstick_x s; cstick_y s; left s; right s].

Definition identify_response : list Z := [0x09; 0x00; 0x20].

Definition origin_response : list Z :=
  [0x00; 0x80; 0x7d; 0x87; 0x82; 0x85; 0x1f; 0x22; 0x00; 0x00].

(** ** Errors: an access outside an array is undefined behaviour in C and is
       [None] here; so is a loop that has used up its fuel. *)

Definition bind {A B : Type} (m : option A) (k : A -> option B) : option B :=
  match m with
  | Some a => k a
  | None => None
  end.

Notation "x <- m ;; k" := (bind m (fun x => k))
  (at level 61, m at next level, right associativity).

(** ** The move queue *)

Definition MOVE_QUEUE_MAX : Z := 10.

(** [unsigned int] has 16 bits on the AVR the sketch is written for. *)
Definition UINT_MODULUS : Z := 65536.

Record Slot : Set := mkSlot { status : GCStatus; count : Z }.

Record MoveQueue : Set := mkMoveQueue {
  queue : list Slot;   (* the MOVE_QUEUE_MAX slots of the array *)
  n : Z;
  pos : Z
}.

Definition in_array (i : Z) : bool := (0 <=? i) && (i <? MOVE_QUEUE_MAX).

Fixpoint upd {A : Type} (l : list A) (k : nat) (x : A) : list A :=
  match l, k with
  | [], _ => []
  | _ :: t, O => x :: t
  | h :: t, S k' => h :: upd t k' x
  end.

(** [q[i]] as an rvalue. *)
Definition slot_read (q : list Slot) (i : Z) : option Slot :=
  if in_array i then nth_error q (Z.to_nat i) else None.

(** [q[i] = f(q[i])]. *)
Definition slot_modify (q : list Slot) (i : Z) (f : Slot -> Slot) : option (list Slot) :=
  s <- slot_read q i ;; Some (upd q (Z.to_nat i) (f s)).

Definition MoveQueue_clear (mq : MoveQueue) : option MoveQueue :=
  q' <- slot_modify (queue mq) 0 (fun s => mkSlot initial_gc_status (count s)) ;;
  Some (mkMoveQueue q' 0 0).

(** [c] is the [unsigned int count] of the call. *)
Definition MoveQueue_add_move (mq : MoveQueue) (st : GCStatus) (c : Z)
  : option MoveQueue :=
  if n mq >=? MOVE_QUEUE_MAX then Some mq
  else
    q' <- slot_modify (queue mq) (n mq) (fun _ => mkSlot st c) ;;
    Some (mkMoveQueue q' (n mq + 1) (pos mq)).

Definition MoveQueue_get_status (mq : MoveQueue) : option GCStatus :=
  if (pos mq <? 0) || (pos mq >=? n mq) then Some initial_gc_status
  else s <- slot_read (queue mq) (pos mq) ;; Some (status s).

Definition MoveQueue_next (mq : MoveQueue) : option (MoveQueue * GCStatus) :=
  mq' <- (if pos mq >=? n mq then MoveQueue_clear mq
          else
            s <- slot_read (queue mq) (pos mq) ;;
            let c := (count s - 1) mod UINT_MODULUS in
            q' <- slot_modify (queue mq) (pos mq) (fun s => mkSlot (status s) c) ;;
            Some (mkMoveQueue q' (n mq) (if c =? 0 then pos mq + 1 else pos mq))) ;;
  st <- MoveQueue_get_status mq' ;;
  Some (mq', st).

(** The entries the queue holds: slots [0 .. n-1]. *)
Definition entries (mq : MoveQueue) : list Slot :=
  firstn (Z.to_nat (n mq)) (queue mq).

(** The global [move_queue] at power-on: static storage, all zero. *)
Definition zero_status : GCStatus := mkGCStatus 0 0 0 0 0 0 0 0.
Definition move_queue_bss : MoveQueue :=
  mkMoveQueue (repeat (mkSlot zero_status 0) 10) 0 0.

(** ** Decoding a move code and building the queue ([loop], serial branch) *)

Definition decode_delta_x (b : Z) : Z := Z.shiftr (Z.land b 0x38) 3 - 2.
Definition decode_rot (b : Z) : Z := Z.shiftr (Z.land b 0x06) 1.
Definition decode_down_fast (b : Z) : bool := negb (Z.land b 0x01 =? 0).

Record Build : Set := mkBuild {
  tmp_status : GCStatus;
  delta_x : Z;
  rot : Z;
  bq : MoveQueue
}.

Definition more_to_do (d r : Z) : bool := negb (d =? 0) || negb (r =? 0).

(** [if(delta_x > 0) ... else if(delta_x < 0) ...] *)
Definition push_stick (tmp : GCStatus) (d : Z) : GCStatus * Z :=
  if d >? 0 then (set_stick_x tmp 255, d - 1)
  else if d <? 0 then (set_stick_x tmp 0, d + 1)
  else (tmp, d).

(** [switch(rot)] *)
Definition press_rotation (tmp : GCStatus) (r : Z) : GCStatus * Z :=
  if (r =? 1) || (r =? 2) then (set_data1 tmp (Z.lor (data1 tmp) 0x04), r - 1)
  else if r =? 3 then (set_data1 tmp (Z.lor (data1 tmp) 0x01), 0)
  else (tmp, r).

(** One pass through the body of the [do ... while]. *)
Definition build_body (st : Build) : option Build :=
  let '(tmp, d) := push_stick (tmp_status st) (delta_x st) in
  let '(tmp, r) := press_rotation tmp (rot st) in
  q1 <- MoveQueue_add_move (bq st) tmp 1 ;;
  let tmp := initial_gc_status in
  q2 <- (if more_to_do d r then MoveQueue_add_move q1 tmp 1 else Some q1) ;;
  Some (mkBuild tmp d r q2).

Fixpoint build_loop (fuel : nat) (st : Build) : option Build :=
  match fuel with
  | O => None
  | S fuel' =>
      st' <- build_body st ;;
      if more_to_do (delta_x st') (rot st') then build_loop fuel' st' else Some st'
  end.

(** Passes the loop needs: each one brings [delta_x] a step closer to 0 and
    lowers [rot]. *)
Definition passes_left (st : Build) : nat :=
  (Z.abs_nat (delta_x st) + Z.abs_nat (rot st))%nat.
Definition build_fuel (d r : Z) : nat := S (Z.abs_nat d + Z.abs_nat r).

(** Everything between [MoveQueue_clear] and the last [MoveQueue_add_move]. *)
Definition build_queue (mq : MoveQueue) (d r : Z) (down_fast : bool)
  : option MoveQueue :=
  q0 <- MoveQueue_clear mq ;;
  st <- build_loop (build_fuel d r) (mkBuild initial_gc_status d r q0) ;;
  q1 <- (if down_fast
         then MoveQueue_add_move (bq st) (set_stick_y (tmp_status st) 0) 8
         else Some (bq st)) ;;
  MoveQueue_add_move q1 initial_gc_status 1.

Definition on_move_code (mq : MoveQueue) (b : Z) : option MoveQueue :=
  build_queue mq (decode_delta_x b) (decode_rot b) (decode_down_fast b).

(** Button bits of an entry: A (bit 0 of [data1]) rotates anticlockwise,
    X (bit 2) clockwise. *)
Definition a_pressed (e : Slot) : bool := Z.testbit (data1 (status e)) 0.
Definition x_pressed (e : Slot) : bool := Z.testbit (data1 (status e)) 2.
Definition no_button_but_x (e : Slot) : Prop :=
  (data1 (status e) = 0 \/ data1 (status e) = 0x04) /\ data2 (status e) = 0.

Definition neutral_entry : Slot := mkSlot initial_gc_status 1.

(** ** The command dispatcher ([loop], the [switch] on [from_gc]) *)

Inductive BusAction : Set :=
| DelayMicroseconds (us : Z)
| GcSend (buffer : list Z).     (* the bytes handed to [gc_send] *)

Definition respond (from_gc : Z) (gc_status : GCStatus) : list BusAction :=
  if from_gc =? 0x00 then [GcSend identify_response]
  else if from_gc =? 0x41 then [DelayMicroseconds 4; GcSend origin_response]
  else if from_gc =? 0x40 then
    [DelayMicroseconds (4 * 17 + 28); GcSend (gc_status_bytes gc_status)]
  else [].

(** What went onto the wire: the buffers of the [gc_send] calls, in order. *)
Fixpoint sent (acts : list BusAction) : list (list Z) :=
  match acts with
  | [] => []
  | GcSend buf :: rest => buf :: sent rest
  | DelayMicroseconds _ :: rest => sent rest
  end.

(** The globals of the sketch. *)
Record Sketch : Set := mkSketch {
  gc_status : GCStatus;
  move_queue : MoveQueue;
  i : Z
}.

(** One pass of [loop] after [gc_get] has delivered [from_gc]; [serial] is the
    byte [Serial.read()] returns when [Serial.available()], else [None]. *)
Definition loop (from_gc : Z) (serial : option Z) (sk : Sketch)
  : option (list BusAction * Sketch) :=
  let out := respond from_gc (gc_status sk) in
  match serial with
  | Some b =>
      mq <- on_move_code (move_queue sk) b ;;
      g <- MoveQueue_get_status mq ;;
      Some (out, mkSketch g mq ((0 + 1) mod UINT_MODULUS))
  | None =>
      if i sk mod 5 =? 0 then
        r <- MoveQueue_next (move_queue sk) ;;
        Some (out, mkSketch (snd r) (fst r) ((i sk + 1) mod UINT_MODULUS))
      else
        Some (out, mkSketch (gc_status sk) (move_queue sk) ((i sk + 1) mod UINT_MODULUS))
  end.

(** [MoveQueue_next] called [k] times in a row. *)
Fixpoint advance (k : nat) (mq : MoveQueue) : option MoveQueue :=
  match k with
  | O => Some mq
  | S k' => r <- MoveQueue_next mq ;; advance k' (fst r)
  end.

(** The queue as [MoveQueue_clear] leaves it. *)
Definition cleared (mq : MoveQueue) : Prop := n mq = 0 /\ pos mq = 0.

(** The entries from the cursor on, and the sum of repeat counts of a list of
    entries. *)
Definition live (mq : MoveQueue) : list Slot :=
  skipn (Z.to_nat (pos mq)) (entries mq).
Definition sum_counts (l : list Slot) : Z := fold_right Z.add 0 (map count l).

(** A repeat count that [unsigned int] holds and that is not 0. *)
Definition count_ok (e : Slot) : Prop := 1 <= count e < UINT_MODULUS.

(** The four operations on the queue, and a run of them. *)
Inductive QueueOp : Set :=
| OpClear
| OpAppend (st : GCStatus) (c : Z)
| OpCurrent
| OpAdvance.

Definition apply_op (op : QueueOp) (mq : MoveQueue) : option MoveQueue :=
  match op with
  | OpClear => MoveQueue_clear mq
  | OpAppend st c => MoveQueue_add_move mq st c
  | OpCurrent => g <- MoveQueue_get_status mq ;; Some mq
  | OpAdvance => r <- MoveQueue_next mq ;; Some (fst r)
  end.

Fixpoint apply_ops (ops : list QueueOp) (mq : MoveQueue) : option MoveQueue :=
  match ops with
  | [] => Some mq
  | op :: rest => mq' <- apply_op op mq ;; apply_ops rest mq'
  end.

(** ** [gc_get]: the receive routine, one basic block of the assembly per step *)

Inductive Label : Set :=
| L_entry | L_read_loop | L_1 | L_2 | L_3 | L_4 | L_exit.

Record Avr : Type := mkAvr {
  pc : Label;
  r23 : Z;          (* the byte being assembled *)
  r24 : Z;          (* timeout counter, and scratch *)
  r25 : Z;          (* bit counter *)
  retval : Z;
  zreg : Z;         (* the Z pointer, as an offset from [bitbin] *)
  ram : Z -> Z;     (* the bytes at [bitbin] *)
  reads : nat       (* how many times PIND2 has been read *)
}.

Definition ram_store (m : Z -> Z) (a v : Z) : Z -> Z :=
  fun x => if x =? a then v else m x.

(** [lsl r23] and then [sbr r23,1] when the line is high. *)
Definition shift_in (r : Z) (level : bool) : Z :=
  let sh := (r * 2) mod 256 in
  if level then Z.lor sh 1 else sh.

(** The value of a list of bits, most significant first. *)
Definition push_bit (acc : Z) (b : bool) : Z := 2 * acc + Z.b2z b.
Definition byte_of_bits (bits : list bool) : Z := fold_left push_bit bits 0.

(** [gc_get] at the top of its read loop, about to wait for bit number [k],
    with [x] in [r23] and the pin read [t] times so far. *)
Definition awaiting_bit (s : Avr) (k x : Z) (t : nat) : Prop :=
  pc s = L_read_loop /\ r25 s = k /\ r23 s = x /\ zreg s = 0 /\
  retval s = 1 /\ reads s = t.

Section Receive.

(** The level of the data line (PIND2) at each successive read of the pin:
    [true] is high. *)
Variable line : nat -> bool.

Definition avr_step (s : Avr) : Avr :=
  match pc s with
  | L_entry =>
      (* ldi r25,0 ; ldi retval,1 *)
      mkAvr L_read_loop (r23 s) (r24 s) 0 1 (zreg s) (ram s) (reads s)
  | L_read_loop =>
      (* ldi r24,64 *)
      mkAvr L_1 (r23 s) 64 (r25 s) (retval s) (zreg s) (ram s) (reads s)
  | L_1 =>
      if line (reads s) then
        (* sbis skips the rjmp ; subi r24,1 ; brne L_1 ; jmp L_1 *)
        let c := (r24 s - 1) mod 256 in
        let target := if c =? 0 then L_1 (* jmp *) else L_1 (* brne *) in
        mkAvr target (r23 s) c (r25 s) (retval s) (zreg s) (ram s) (S (reads s))
      else
        (* rjmp L_2 *)
        mkAvr L_2 (r23 s) (r24 s) (r25 s) (retval s) (zreg s) (ram s) (S (reads s))
  | L_2 =>
      (* nop x30 ; lsl r23 ; sbic ; sbr r23,1 ; st Z,r23 *)
      let b := shift_in (r23 s) (line (reads s)) in
      let m := ram_store (ram s) (zreg s) b in
      (* subi r25,-1 ; cpi r25,8 ; breq exit *)
      let cnt := (r25 s + 1) mod 256 in
      if cnt =? 8 then
        mkAvr L_exit b (r24 s) cnt (retval s) (zreg s) m (S (reads s))
      else
        (* mov r24,r25 ; andi r24,7 ; brne L_3 ; adiw r30,1 ; ld r23,Z *)
        let low := Z.land cnt 7 in
        if low =? 0 then
          mkAvr L_3 (m (zreg s + 1)) low cnt (retval s) (zreg s + 1) m (S (reads s))
        else
          mkAvr L_3 b low cnt (retval s) (zreg s) m (S (reads s))
  | L_3 =>
      (* ldi r24,64 *)
      mkAvr L_4 (r23 s) 64 (r25 s) (retval s) (zreg s) (ram s) (reads s)
  | L_4 =>
      if line (reads s) then
        (* rjmp read_loop *)
        mkAvr L_read_loop (r23 s) (r24 s) (r25 s) (retval s) (zreg s) (ram s) (S (reads s))
      else
        (* sbic skips the rjmp ; subi r24,1 ; brne L_4 ; ldi retval,0 *)
        let c := (r24 s - 1) mod 256 in
        if c =? 0 then
          mkAvr L_exit (r23 s) c (r25 s) 0 (zreg s) (ram s) (S (reads s))
        else
          mkAvr L_4 (r23 s) c (r25 s) (retval s) (zreg s) (ram s) (S (reads s))
  | L_exit => s
  end.

Fixpoint avr_steps (k : nat) (s : Avr) : Avr :=
  match k with
  | O => s
  | S k' => avr_steps k' (avr_step s)
  end.

Definition at_exit (s : Avr) : bool :=
  match pc s with L_exit => true | _ => false end.

(** Run until the exit label; [None] when [fuel] blocks were not enough. *)
Fixpoint avr_run (fuel : nat) (s : Avr) : option Avr :=
  if at_exit s then Some s
  else match fuel with
       | O => None
       | S fuel' => avr_run fuel' (avr_step s)
       end.

(** [gc_get(&from_gc)]: the return value and the byte left in [from_gc].
    [regs] holds whatever the registers and [from_gc] held before the call. *)
Definition gc_get_entry (regs : Avr) : Avr :=
  mkAvr L_entry (r23 regs) (r24 regs) (r25 regs) (retval regs) 0 (ram regs) 0.

Definition gc_get (fuel : nat) (regs : Avr) : option (Z * Z) :=
  match avr_run fuel (gc_get_entry regs) with
  | Some s => Some (retval s, ram s 0)
  | None => None
  end.

End Receive.

Definition power_on_regs : Avr := mkAvr L_entry 0 0 0 0 0 (fun _ => 0) 0.
Definition line_idle : nat -> bool := fun _ => true.

(** A command byte on the line, most significant bit first: the line is read
    low (the falling edge), then at the bit's level, then high again. *)
Fixpoint line_of_bits (bits : list bool) : list bool :=
  match bits with
  | [] => []
  | [b] => [false; b]
  | b :: rest => false :: b :: true :: line_of_bits rest
  end.
Definition line_of (samples : list bool) : nat -> bool :=
  fun k => nth k samples true.

(** What [gc_get] keeps true from its first instruction on: the Z pointer
    stays on [from_gc] (offset 0), nothing but [from_gc] is written, and [r25]
    counts the bits sampled so far. *)
Definition receive_inv (regs s : Avr) : Prop :=
  zreg s = 0 /\ (forall a, a <> 0 -> ram s a = ram regs a) /\
  match pc s with
  | L_entry => True
  | L_read_loop | L_1 | L_2 => retval s = 1 /\ 0 <= r25 s <= 7
  | L_3 | L_4 => retval s = 1 /\ 1 <= r25 s <= 7
  | L_exit => (retval s = 1 /\ r25 s = 8) \/ (retval s = 0 /\ 1 <= r25 s <= 7)
  end.

(** ** [gc_get] on the clock: the blocks of [avr_step] with the cycles they
       take.  The source notes that a cycle is 1/16 us on the 16 MHz
       processor and gives no counts for the instructions of [gc_get]; the
       counts here are those of the AVR instruction set, the same the source
       notes in [gc_send] for the instructions the two routines share
       ([ldi] 1, [lsl] 1, [nop] 1, [subi] 1, [rjmp] 2, [adiw] 2, [ld] 2, a
       branch 1 or 2). *)

(** Cycles from the start of a block to the instruction in it that reads the
    pin: [sbis] opens the block at [L_1], [sbic] the block at [L_4]; at
    [L_2] the [sbic] comes after 30 [nop] and [lsl]. *)
Definition read_offset (s : Avr) : Z :=
  match pc s with
  | L_2 => 30 + 1
  | _ => 0
  end.

(** Cycles a block takes when its read of the pin finds [level] (AVR
    instruction set: [ldi], [nop], [lsl], [sbr], [subi], [cpi], [mov], [andi]
    1; [rjmp], [st], [ld], [adiw] 2; [jmp] 3; a branch 1, or 2 when taken;
    [sbis]/[sbic] 1, or 2 when the next instruction is skipped). *)
Definition block_cycles (s : Avr) (level : bool) : Z :=
  match pc s with
  | L_entry => 1 + 1
  | L_read_loop => 1
  | L_1 =>
      if level then
        (* sbis (skips, 2) ; subi (1) ; brne (2), or brne (1) ; jmp (3) *)
        if (r24 s - 1) mod 256 =? 0 then 2 + 1 + 1 + 3 else 2 + 1 + 2
      else
        (* sbis (1) ; rjmp L_2 (2) *)
        1 + 2
  | L_2 =>
      (* nop x30 ; lsl (1) ; sbic with sbr or its skip (2) ; st (2) ;
         subi (1) ; cpi (1) *)
      let cnt := (r25 s + 1) mod 256 in
      30 + 1 + 2 + 2 + 1 + 1 +
      (if cnt =? 8 then 2                       (* breq exit, taken *)
       else 1 + 1 + 1 +                         (* breq ; mov ; andi *)
            (if Z.land cnt 7 =? 0 then 1 + 2 + 2    (* brne ; adiw ; ld *)
             else 2))                               (* brne L_3, taken *)
  | L_3 => 1
  | L_4 =>
      if level then
        (* sbic (1) ; rjmp read_loop (2) *)
        1 + 2
      else
        (* sbic (skips, 2) ; subi (1) ; brne (2), or brne (1) ; ldi (1) *)
        if (r24 s - 1) mod 256 =? 0 then 2 + 1 + 1 + 1 else 2 + 1 + 2
  | L_exit => 0
  end.

Record Timed : Type := mkTimed {
  core : Avr;
  cycle : Z        (* the cycle at which the next block starts *)
}.

Section TimedReceive.

(** The level of the data line at each cycle. *)
Variable wave : Z -> bool.

(** One block: the pin is read at the cycle its [sbis] or [sbic] starts. *)
Definition timed_step (s : Timed) : Timed :=
  let level := wave (cycle s + read_offset (core s)) in
  mkTimed (avr_step (fun _ => level) (core s))
          (cycle s + block_cycles (core s) level).

Fixpoint timed_steps (k : nat) (s : Timed) : Timed :=
  match k with
  | O => s
  | S k' => timed_steps k' (timed_step s)
  end.

Fixpoint timed_run (fuel : nat) (s : Timed) : option Timed :=
  if at_exit (core s) then Some s
  else match fuel with
       | O => None
       | S fuel' => timed_run fuel' (timed_step s)
       end.

(** [gc_get(&from_gc)] entered at cycle [start]. *)
Definition gc_get_timed (start : Z) (fuel : nat) (regs : Avr) : option (Z * Z) :=
  match timed_run fuel (mkTimed (gc_get_entry regs) start) with
  | Some s => Some (retval (core s), ram (core s) 0)
  | None => None
  end.

End TimedReceive.

(** ** [gc_send]: the transmit routine, one basic block of the assembly per
       step, with the cycle counts the source notes beside the instructions *)

Inductive SendLabel : Set :=
| T_entry | T_byte_loop | T_bit_loop | T_zero_bit | T_finish_bit
| T_load_next_byte | T_loop_exit | T_done.

Record AvrSend : Set := mkAvrSend {
  tpc : SendLabel;
  t25 : Z;                 (* r25: the byte being sent *)
  t26 : Z;                 (* r26: bits left in this byte *)
  tlen : Z;                (* %[length]: bytes left *)
  tz : Z;                  (* the Z pointer, as an offset into [buffer] *)
  clock : Z;               (* cycles since the first instruction *)
  wire : list (Z * bool)   (* changes of the line so far: cycle, new level *)
}.

Section Transmit.

(** The bytes at [buffer], by offset. *)
Variable buffer : Z -> Z.

(** [sbi 0xa,2] pulls the line low ([false]), [cbi 0xa,2] lets it go high;
    the change is dated at the end of the instruction. *)
Definition send_step (s : AvrSend) : AvrSend :=
  let c := clock s in
  match tpc s with
  | T_entry =>
      (* ld r25,Z (2) *)
      mkAvrSend T_byte_loop (buffer (tz s)) (t26 s) (tlen s) (tz s) (c + 2) (wire s)
  | T_byte_loop =>
      (* ldi r26,8 (1) *)
      mkAvrSend T_bit_loop (t25 s) 8 (tlen s) (tz s) (c + 1) (wire s)
  | T_bit_loop =>
      (* sbi (2) ; lsl r25 (1) ; brcc zero_bit (1/2) *)
      let low := wire s ++ [(c + 2, false)] in
      let carry := Z.testbit (t25 s) 7 in
      let r := (t25 s * 2) mod 256 in
      if carry then
        (* nop x12 ; cbi (2) ; nop x30 ; rjmp finish_bit (2) *)
        mkAvrSend T_finish_bit r (t26 s) (tlen s) (tz s) (c + 2 + 1 + 1 + 12 + 2 + 30 + 2)
                  (low ++ [(c + 2 + 1 + 1 + 12 + 2, true)])
      else
        mkAvrSend T_zero_bit r (t26 s) (tlen s) (tz s) (c + 2 + 1 + 2) low
  | T_zero_bit =>
      (* nop x43 ; cbi (2) *)
      mkAvrSend T_finish_bit (t25 s) (t26 s) (tlen s) (tz s) (c + 43 + 2)
                (wire s ++ [(c + 43 + 2, true)])
  | T_finish_bit =>
      (* subi r26,1 (1) ; breq load_next_byte (1/2) *)
      let k := (t26 s - 1) mod 256 in
      if k =? 0 then
        mkAvrSend T_load_next_byte (t25 s) k (tlen s) (tz s) (c + 1 + 2) (wire s)
      else
        (* nop x10 ; rjmp bit_loop (2) *)
        mkAvrSend T_bit_loop (t25 s) k (tlen s) (tz s) (c + 1 + 1 + 10 + 2) (wire s)
  | T_load_next_byte =>
      (* subi length,1 (1) ; breq loop_exit (1/2) *)
      let l := (tlen s - 1) mod 256 in
      if l =? 0 then
        mkAvrSend T_loop_exit (t25 s) (t26 s) l (tz s) (c + 1 + 2) (wire s)
      else
        (* adiw r30,1 (2) ; ld r25,Z (2) ; nop x2 ; rjmp byte_loop (2) *)
        mkAvrSend T_byte_loop (buffer (tz s + 1)) (t26 s) l (tz s + 1)
                  (c + 1 + 1 + 2 + 2 + 2 + 2) (wire s)
  | T_loop_exit =>
      (* nop x8 ; sbi (2) ; nop x14 ; cbi (2) *)
      mkAvrSend T_done (t25 s) (t26 s) (tlen s) (tz s) (c + 8 + 2 + 14 + 2)
                (wire s ++ [(c + 8 + 2, false); (c + 8 + 2 + 14 + 2, true)])
  | T_done => s
  end.

Fixpoint send_steps (k : nat) (s : AvrSend) : AvrSend :=
  match k with
  | O => s
  | S k' => send_steps k' (send_step s)
  end.

Definition sent_all (s : AvrSend) : bool :=
  match tpc s with T_done => true | _ => false end.

Fixpoint send_run (fuel : nat) (s : AvrSend) : option AvrSend :=
  if sent_all s then Some s
  else match fuel with
       | O => None
       | S fuel' => send_run fuel' (send_step s)
       end.

(** [gc_send(buffer, length)]: the changes of the line, in order, each with
    the cycle it happens at.  [r26] holds whatever it held before. *)
Definition gc_send_entry (length r26 : Z) : AvrSend :=
  mkAvrSend T_entry 0 r26 length 0 0 [].

Definition gc_send (length : Z) (fuel : nat) : option (list (Z * bool)) :=
  match send_run fuel (gc_send_entry length 0) with
  | Some s => Some (wire s)
  | None => None
  end.

End Transmit.

(** The wave form the comments of [gc_send] describe: every bit starts with a
    falling edge, the line stays low for 1 us (16 cycles at 16 MHz) for a 1
    and for 3 us for a 0, and the next bit starts 4 us after this one. *)
Fixpoint pulse_train (t : Z) (bits : list bool) : list (Z * bool) :=
  match bits with
  | [] => []
  | b :: rest =>
      (t, false) :: (t + (if b then 16 else 48), true) :: pulse_train (t + 64) rest
  end.

(** A byte as its bits, most significant first. *)
Definition byte_bits (x : Z) : list bool :=
  map (Z.testbit x) [7; 6; 5; 4; 3; 2; 1; 0].

(** The bits [lsl] moves into the carry in [j] shifts of an 8-bit register. *)
Fixpoint shifted_out (j : nat) (x : Z) : list bool :=
  match j with
  | O => []
  | S j' => Z.testbit x 7 :: shifted_out j' ((x * 2) mod 256)
  end.

(** [m] bytes of the buffer from offset [a] on. *)
Fixpoint bytes_from (buffer : Z -> Z) (a : Z) (m : nat) : list Z :=
  match m with
  | O => []
  | S m' => buffer a :: bytes_from buffer (a + 1) m'
  end.

(** [gc_send(buf, sizeof(buf))], as [loop] calls it on its three buffers. *)
Definition gc_send_buffer (buf : list Z) (fuel : nat) : option (list (Z * bool)) :=
  gc_send (fun a => nth (Z.to_nat a) buf 0) (Z.of_nat (length buf)) fuel.

(** The level of the line at cycle [t], when it was at [level] before the
    first of the changes [w]. *)
Fixpoint level_at (w : list (Z * bool)) (t : Z) (level : bool) : bool :=
  match w with
  | [] => level
  | (t0, l) :: rest => if t0 <=? t then level_at rest t l else level
  end.

(** ** [setup] and a run of [loop] *)

(** [setup()]: the pin and serial set-up has no part in the model; the queue
    is cleared.  The other globals have their initialisers. *)
Definition setup : option Sketch :=
  mq <- MoveQueue_clear move_queue_bss ;;
  Some (mkSketch initial_gc_status mq 0).

(** Passes of [loop], one per received command byte, each with the byte the
    host sent in the meantime, if any. *)
Fixpoint run_loop (inputs : list (Z * option Z)) (sk : Sketch)
  : option (list BusAction * Sketch) :=
  match inputs with
  | [] => Some ([], sk)
  | (from_gc, serial) :: rest =>
      r <- loop from_gc serial sk ;;
      r' <- run_loop rest (snd r) ;;
      Some (fst r ++ fst r', snd r')
  end.

(** Polls of the console while the host sends nothing: one pass of [loop]
    per command byte, [Serial.available()] false in each. *)
Definition idle_polls (cmds : list Z) : list (Z * option Z) :=
  map (fun c => (c, None)) cmds.

(** The controller states the sketch can build: no button but A or X, the
    stick at rest or fully to one side or fully down, the rest at rest. *)
Definition reportable (g : GCStatus) : Prop :=
  (data1 g = 0 \/ data1 g = 0x01 \/ data1 g = 0x04) /\ data2 g = 0 /\
  (stick_x g = 0 \/ stick_x g = 128 \/ stick_x g = 255) /\
  (stick_y g = 0 \/ stick_y g = 128) /\
  cstick_x g = 128 /\ cstick_y g = 128 /\ left g = 0 /\ right g = 0.

Definition reportable_entry (e : Slot) : Prop := reportable (status e).

(** [s'] is reached from [s] in at most [n] blocks. *)
Definition send_within (buffer : Z -> Z) (n : nat) (s s' : AvrSend) : Prop :=
  exists k, (k <= n)%nat /\ send_steps buffer k s = s'.

(** ** Invariants of the queue *)

Definition array_ok (mq : MoveQueue) : Prop :=
  length (queue mq) = Z.to_nat MOVE_QUEUE_MAX.

Definition queue_inv (mq : MoveQueue) : Prop :=
  array_ok mq /\ 0 <= pos mq <= n mq /\ n mq <= MOVE_QUEUE_MAX.

Definition sketch_inv (sk : Sketch) : Prop :=
  queue_inv (move_queue sk) /\
  Forall reportable_entry (entries (move_queue sk)) /\
  reportable (gc_status sk).

(** The buffers the sketch may hand to [gc_send]. *)
Definition allowed_buffer (buf : list Z) : Prop :=
  buf = identify_response \/ buf = origin_response \/
  exists g, reportable g /\ buf = gc_status_bytes g.

(** *** Invariants of the [do ... while], at the head of its body, and what
        holds when it is left *)

(** The entry count stays within a budget [B]: a pass appends two entries,
    the last pass one. *)
Definition budget_inv (B : Z) (st : Build) : Prop :=
  queue_inv (bq st) /\ pos (bq st) = 0 /\ 0 <= rot st <= 3 /\
  n (bq st) + 2 * Z.max (Z.max (Z.abs (delta_x st)) (rot st)) 1 - 1 <= B.

Definition budget_post (B : Z) (st : Build) : Prop :=
  queue_inv (bq st) /\ pos (bq st) = 0 /\
  tmp_status st = initial_gc_status /\ n (bq st) <= B.

(** Every entry satisfies [P], with the rotation count at most [hi]. *)
Definition every_inv (P : Slot -> Prop) (hi : Z) (st : Build) : Prop :=
  queue_inv (bq st) /\ pos (bq st) = 0 /\ tmp_status st = initial_gc_status /\
  0 <= rot st <= hi /\ Forall P (entries (bq st)).

Definition every_post (P : Slot -> Prop) (st : Build) : Prop :=
  queue_inv (bq st) /\ pos (bq st) = 0 /\ tmp_status st = initial_gc_status /\
  Forall P (entries (bq st)).

(** The first entry holds the A press and no later entry does. *)
Definition one_a_press (l : list Slot) : Prop :=
  exists e rest, l = e :: rest /\ a_pressed e = true /\
                 Forall (fun x => a_pressed x = false) rest.

Definition released_inv (st : Build) : Prop :=
  queue_inv (bq st) /\ tmp_status st = initial_gc_status /\ rot st = 0 /\
  one_a_press (entries (bq st)).

Definition released_post (st : Build) : Prop :=
  queue_inv (bq st) /\ tmp_status st = initial_gc_status /\
  one_a_press (entries (bq st)).

(** The array of a queue, slot by slot. *)
Ltac slots_of mq Hlen :=
  destruct mq as [?q ?nn ?pp];
  unfold array_ok in Hlen; cbn [queue] in Hlen;
  change (Z.to_nat MOVE_QUEUE_MAX) with 10%nat in Hlen;
  repeat match type of Hlen with
         | length ?q = S _ =>
             destruct q as [|?s ?q]; [discriminate Hlen|];
             cbn [length] in Hlen; apply eq_add_S in Hlen
         | length ?q = O =>
             destruct q; [clear Hlen | discriminate Hlen]
         end.

(** The 32 pairs of displacement and rotation a byte decodes to, one goal
    each. *)
Ltac each_code d r Hd Hr :=
  let Ed := fresh "Ed" in
  let Er := fresh "Er" in
  assert (Ed : d = -2 \/ d = -1 \/ d = 0 \/ d = 1 \/ d = 2 \/ d = 3 \/ d = 4 \/ d = 5)
    by lia;
  assert (Er : r = 0 \/ r = 1 \/ r = 2 \/ r = 3) by lia;
  clear Hd Hr;
  destruct Ed as [Ed|[Ed|[Ed|[Ed|[Ed|[Ed|[Ed|Ed]]]]]]];
  destruct Er as [Er|[Er|[Er|Er]]]; rewrite Ed, Er; clear Ed Er.

(** * Lemmas on arrays *)

Section Arrays.
Context {A : Type}.
Implicit Types (l : list A) (k j : nat) (x : A).

Lemma length_upd l k x : length (upd l k x) = length l.
Proof.
  revert k; induction l as [|h t IH]; intros [|k]; simpl; auto.
Qed.

Lemma firstn_upd_snoc l k x :
  (k < length l)%nat -> firstn (S k) (upd l k x) = firstn k l ++ [x].
Proof.
  revert k; induction l as [|h t IH]; intros [|k] H; simpl in *; try lia; auto.
  f_equal; apply IH; lia.
Qed.

Lemma skipn_upd_above l k j x :
  (k < j)%nat -> skipn j (upd l k x) = skipn j l.
Proof.
  revert k j; induction l as [|h t IH]; intros [|k] [|j] H; simpl; auto;
    try lia.
  apply IH; lia.
Qed.
Lemma skipn_upd_at l k x :
  (k < length l)%nat -> skipn k (upd l k x) = x :: skipn (S k) l.
Proof.
  revert k; induction l as [|h t IH]; intros [|k] H; simpl in *; try lia; auto.
  apply IH; lia.
Qed.

End Arrays.

Lemma in_array_true i : 0 <= i < MOVE_QUEUE_MAX -> in_array i = true.
Proof.
  unfold in_array, MOVE_QUEUE_MAX; intros H.
  apply andb_true_intro; split; [apply Z.leb_le | apply Z.ltb_lt]; lia.
Qed.

Lemma slot_read_some mq i :
  array_ok mq -> 0 <= i < MOVE_QUEUE_MAX ->
  exists s, slot_read (queue mq) i = Some s /\ nth_error (queue mq) (Z.to_nat i) = Some s.
Proof.
  intros Hlen Hi. unfold slot_read. rewrite in_array_true by assumption.
  destruct (nth_error (queue mq) (Z.to_nat i)) as [s|] eqn:E; [eauto|].
  apply nth_error_None in E. unfold array_ok, MOVE_QUEUE_MAX in *. lia.
Qed.

Lemma slot_modify_some mq i f :
  array_ok mq -> 0 <= i < MOVE_QUEUE_MAX ->
  exists s, nth_error (queue mq) (Z.to_nat i) = Some s /\
            slot_modify (queue mq) i f = Some (upd (queue mq) (Z.to_nat i) (f s)).
Proof.
  intros Hlen Hi. destruct (slot_read_some mq i Hlen Hi) as (s & Hr & Hn).
  exists s; split; [assumption|]. unfold slot_modify; rewrite Hr; reflexivity.
Qed.

(** * The operations, one by one *)

Lemma MoveQueue_clear_ok mq :
  array_ok mq ->
  exists mq', MoveQueue_clear mq = Some mq' /\ array_ok mq' /\ n mq' = 0 /\ pos mq' = 0.
Proof.
  intros Hlen. unfold MoveQueue_clear.
  destruct (slot_modify_some mq 0 (fun s => mkSlot initial_gc_status (count s)) Hlen)
    as (s & _ & ->); [unfold MOVE_QUEUE_MAX; lia|].
  simpl. eexists; split; [reflexivity|].
  unfold array_ok in *; simpl; rewrite length_upd; auto.
Qed.

Lemma MoveQueue_add_move_full mq st c :
  MOVE_QUEUE_MAX <= n mq -> MoveQueue_add_move mq st c = Some mq.
Proof.
  intros H. unfold MoveQueue_add_move.
  destruct (Z.geb_spec (n mq) MOVE_QUEUE_MAX); [reflexivity | lia].
Qed.

Lemma MoveQueue_add_move_room mq st c :
  array_ok mq -> 0 <= n mq < MOVE_QUEUE_MAX ->
  exists mq', MoveQueue_add_move mq st c = Some mq' /\ array_ok mq' /\
              n mq' = n mq + 1 /\ pos mq' = pos mq /\
              entries mq' = entries mq ++ [mkSlot st c].
Proof.
  intros Hlen Hn. unfold MoveQueue_add_move.
  destruct (Z.geb_spec (n mq) MOVE_QUEUE_MAX); [lia|].
  destruct (slot_modify_some mq (n mq) (fun _ => mkSlot st c) Hlen Hn) as (s & _ & ->).
  simpl. eexists; split; [reflexivity|].
  unfold array_ok, entries in *; simpl. rewrite length_upd.
  repeat split; auto.
  replace (Z.to_nat (n mq + 1)) with (S (Z.to_nat (n mq))) by lia.
  apply firstn_upd_snoc. unfold MOVE_QUEUE_MAX in *; lia.
Qed.

Lemma land_low_bits_range (a k : Z) :
  0 <= k -> 0 <= Z.land a (Z.ones k) < 2 ^ k.
Proof.
  intros Hk. rewrite Z.land_ones by assumption.
  apply Z.mod_pos_bound. apply Z.pow_pos_nonneg; lia.
Qed.

Lemma decode_delta_x_shift b : decode_delta_x b = Z.land (Z.shiftr b 3) 7 - 2.
Proof. unfold decode_delta_x. rewrite Z.shiftr_land. reflexivity. Qed.

Lemma decode_rot_shift b : decode_rot b = Z.land (Z.shiftr b 1) 3.
Proof. unfold decode_rot. rewrite Z.shiftr_land. reflexivity. Qed.

Lemma decode_delta_x_range b : -2 <= decode_delta_x b <= 5.
Proof.
  rewrite decode_delta_x_shift.
  pose proof (land_low_bits_range (Z.shiftr b 3) 3 ltac:(lia)) as B3.
  change (Z.ones 3) with 7 in B3. change (2 ^ 3) with 8 in B3. lia.
Qed.

Lemma decode_rot_range b : 0 <= decode_rot b <= 3.
Proof.
  rewrite decode_rot_shift.
  pose proof (land_low_bits_range (Z.shiftr b 1) 2 ltac:(lia)) as B2.
  change (Z.ones 2) with 3 in B2. change (2 ^ 2) with 4 in B2. lia.
Qed.

(** C8: for every byte [b] from the host link the displacement is
    [((b >> 3) & 7) - 2], between -2 and 5; the rotation count is
    [(b >> 1) & 3], between 0 and 3; the fast-drop flag is bit 0 of [b]. *)
Theorem decode_move_code_layout (b : Z) :
  decode_delta_x b = Z.land (Z.shiftr b 3) 7 - 2 /\
  -2 <= decode_delta_x b <= 5 /\
  decode_rot b = Z.land (Z.shiftr b 1) 3 /\
  0 <= decode_rot b <= 3 /\
  decode_down_fast b = Z.testbit b 0.
Proof.
  split; [apply decode_delta_x_shift|].
  split; [apply decode_delta_x_range|].
  split; [apply decode_rot_shift|].
  split; [apply decode_rot_range|].
  unfold decode_down_fast. change 1 with (Z.ones 1).
  rewrite Z.land_ones by lia. change (2 ^ 1) with 2.
  rewrite <- Z.bit0_mod. destruct (Z.testbit b 0); reflexivity.
Qed.

(** * The dispatcher *)

(** C9: the identification record goes out iff the command byte is 0x00, the
    origin record iff it is 0x41, the eight bytes of the controller state iff
    it is 0x40, and nothing goes out for any other byte. *)
Theorem respond_by_command (from_gc : Z) (gs : GCStatus) :
  (sent (respond from_gc gs) = [identify_response] <-> from_gc = 0x00) /\
  (sent (respond from_gc gs) = [origin_response] <-> from_gc = 0x41) /\
  (sent (respond from_gc gs) = [gc_status_bytes gs] <-> from_gc = 0x40) /\
  (sent (respond from_gc gs) = [] <->
     from_gc <> 0x00 /\ from_gc <> 0x41 /\ from_gc <> 0x40) /\
  length identify_response = 3%nat /\
  length origin_response = 10%nat /\
  length (gc_status_bytes gs) = 8%nat.
Proof.
  unfold respond.
  destruct (Z.eqb_spec from_gc 0x00) as [E0|N0];
    [| destruct (Z.eqb_spec from_gc 0x41) as [E1|N1];
       [| destruct (Z.eqb_spec from_gc 0x40) as [E2|N2]]];
    simpl; repeat split; intros; subst;
    try reflexivity; try lia; try discriminate;
    try (exfalso; intuition congruence).
Qed.

(** * Appending to a full queue *)

(** C7: on a queue that already holds [MOVE_QUEUE_MAX] entries an append
    returns the queue as it was: slots, entry count and cursor. *)
Theorem add_move_at_capacity (mq : MoveQueue) (st : GCStatus) (c : Z) :
  n mq = MOVE_QUEUE_MAX -> MoveQueue_add_move mq st c = Some mq.
Proof.
  intros H. apply MoveQueue_add_move_full. lia.
Qed.

(** * Appends seen through [entries] *)

Lemma entries_length mq : queue_inv mq -> length (entries mq) = Z.to_nat (n mq).
Proof.
  intros (Hl & Hp & Hn). unfold entries, array_ok, MOVE_QUEUE_MAX in *.
  rewrite length_firstn. lia.
Qed.

Lemma firstn_cap_app {A : Type} (k : nat) (l m : list A) :
  firstn k (firstn k l ++ m) = firstn k (l ++ m).
Proof.
  destruct (Nat.le_gt_cases (length l) k) as [H|H].
  - rewrite (firstn_all2 l) by assumption. reflexivity.
  - rewrite !firstn_app, length_firstn, firstn_firstn.
    replace (k - Nat.min k (length l))%nat with 0%nat by lia.
    replace (k - length l)%nat with 0%nat by lia.
    replace (Nat.min k k) with k by lia. reflexivity.
Qed.

Lemma MoveQueue_add_move_spec mq st c :
  queue_inv mq ->
  exists mq',
    MoveQueue_add_move mq st c = Some mq' /\ queue_inv mq' /\ pos mq' = pos mq /\
    entries mq' = firstn (Z.to_nat MOVE_QUEUE_MAX) (entries mq ++ [mkSlot st c]).
Proof.
  intros Hinv. pose proof (entries_length mq Hinv) as Hlen.
  destruct Hinv as (Hl & Hp & Hn).
  destruct (Z.eq_dec (n mq) MOVE_QUEUE_MAX) as [E|E].
  - exists mq. rewrite MoveQueue_add_move_full by lia.
    repeat split; auto; try lia.
    rewrite firstn_app, Hlen, E, Nat.sub_diag, firstn_O, app_nil_r.
    symmetry. apply firstn_all2. lia.
  - destruct (MoveQueue_add_move_room mq st c Hl) as (mq' & -> & Hl' & Hn' & Hp' & He);
      [lia|].
    exists mq'. split; [reflexivity|]. split; [split; [assumption | lia] |].
    split; [assumption|]. rewrite He. symmetry. apply firstn_all2.
    rewrite length_app, Hlen. simpl. unfold MOVE_QUEUE_MAX in *. lia.
Qed.

(** * One pass of the loop *)

Lemma push_stick_buttons tmp d :
  data1 (fst (push_stick tmp d)) = data1 tmp /\
  data2 (fst (push_stick tmp d)) = data2 tmp.
Proof.
  unfold push_stick. destruct (d >? 0); [|destruct (d <? 0)]; simpl; auto.
Qed.

Lemma push_stick_closer tmp d :
  let d' := snd (push_stick tmp d) in
  (d = 0 -> d' = 0) /\ (d <> 0 -> Z.abs d' = Z.abs d - 1).
Proof.
  unfold push_stick.
  destruct (Z.gtb_spec d 0); [|destruct (Z.ltb_spec d 0)]; simpl; lia.
Qed.

Lemma press_rotation_lowers tmp r :
  0 <= r <= 3 ->
  let r' := snd (press_rotation tmp r) in
  0 <= r' <= 2 /\ (r = 0 -> r' = 0) /\ (r <> 0 -> r' < r).
Proof.
  intros Hr. unfold press_rotation.
  destruct (Z.eqb_spec r 1); [simpl; lia|].
  destruct (Z.eqb_spec r 2); [simpl; lia|].
  destruct (Z.eqb_spec r 3); simpl; lia.
Qed.

Lemma build_body_spec st :
  queue_inv (bq st) ->
  let moved := push_stick (tmp_status st) (delta_x st) in
  let turned := press_rotation (fst moved) (rot st) in
  exists q,
    build_body st = Some (mkBuild initial_gc_status (snd moved) (snd turned) q) /\
    queue_inv q /\ pos q = pos (bq st) /\
    entries q =
      firstn (Z.to_nat MOVE_QUEUE_MAX)
        (entries (bq st) ++
           mkSlot (fst turned) 1 ::
           (if more_to_do (snd moved) (snd turned) then [neutral_entry] else [])).
Proof.
  intros Hinv. cbv zeta. unfold build_body.
  destruct (push_stick (tmp_status st) (delta_x st)) as [tmp1 d1].
  cbn [fst snd].
  destruct (press_rotation tmp1 (rot st)) as [tmp2 r1].
  cbn [fst snd].
  destruct (MoveQueue_add_move_spec (bq st) tmp2 1 Hinv) as (q1 & -> & Hinv1 & Hp1 & He1).
  simpl. destruct (more_to_do d1 r1).
  - destruct (MoveQueue_add_move_spec q1 initial_gc_status 1 Hinv1)
      as (q2 & -> & Hinv2 & Hp2 & He2).
    simpl. exists q2. repeat split; try apply Hinv2; try congruence.
    rewrite He2, He1, firstn_cap_app, <- app_assoc. reflexivity.
  - exists q1. repeat split; try apply Hinv1; assumption.
Qed.

Lemma build_body_progress st st' :
  0 <= rot st <= 3 ->
  build_body st = Some st' ->
  0 <= rot st' <= 3 /\
  (more_to_do (delta_x st') (rot st') = true ->
   (passes_left st' < passes_left st)%nat).
Proof.
  intros Hr Hb. unfold build_body in Hb.
  pose proof (push_stick_closer (tmp_status st) (delta_x st)) as Hd.
  destruct (push_stick (tmp_status st) (delta_x st)) as [tmp1 d1].
  pose proof (press_rotation_lowers tmp1 (rot st) Hr) as Hr'.
  destruct (press_rotation tmp1 (rot st)) as [tmp2 r1].
  destruct (MoveQueue_add_move (bq st) tmp2 1) as [q1|]; [|discriminate].
  simpl in Hb.
  destruct (if more_to_do d1 r1 then MoveQueue_add_move q1 initial_gc_status 1
            else Some q1) as [q2|]; [|discriminate].
  simpl in Hb, Hd, Hr'. injection Hb as <-. simpl.
  split; [lia|]. unfold more_to_do, passes_left. simpl.
  destruct (Z.eqb_spec d1 0), (Z.eqb_spec r1 0); simpl; intros; try discriminate; lia.
Qed.

(** The rule for the [do ... while]: [I] holds whenever the body is entered,
    [Q] when the loop is left. *)
Lemma build_loop_rule (I Q : Build -> Prop) :
  (forall st, I st ->
     exists st', build_body st = Some st' /\
       if more_to_do (delta_x st') (rot st')
       then I st' /\ (passes_left st' < passes_left st)%nat
       else Q st') ->
  forall fuel st, I st -> (passes_left st < fuel)%nat ->
    exists st', build_loop fuel st = Some st' /\ Q st' /\
                delta_x st' = 0 /\ rot st' = 0.
Proof.
  intros Hbody. induction fuel as [|fuel IH]; intros st HI Hfuel; [lia|].
  simpl. destruct (Hbody st HI) as (st' & -> & Hnext). simpl.
  destruct (more_to_do (delta_x st') (rot st')) eqn:E.
  - destruct Hnext as [HI' Hlt]. apply IH; [assumption | lia].
  - exists st'. repeat split; try assumption;
      unfold more_to_do in E;
      destruct (Z.eqb_spec (delta_x st') 0), (Z.eqb_spec (rot st') 0);
      simpl in E; congruence.
Qed.

(** * Building the queue: how many entries *)

(** [B] bounds the entry count once the loop is left. *)
Lemma build_loop_budget B fuel st :
  queue_inv (bq st) -> pos (bq st) = 0 -> 0 <= rot st <= 3 ->
  n (bq st) + 2 * Z.max (Z.max (Z.abs (delta_x st)) (rot st)) 1 - 1 <= B ->
  (passes_left st < fuel)%nat ->
  exists st', build_loop fuel st = Some st' /\
              queue_inv (bq st') /\ pos (bq st') = 0 /\
              tmp_status st' = initial_gc_status /\ n (bq st') <= B.
Proof.
  intros Hinv Hpos Hrot Hbud Hfuel.
  destruct (build_loop_rule (budget_inv B) (budget_post B)) with (fuel := fuel) (st := st)
    as (st' & Hrun & HQ & _); [| unfold budget_inv; auto | assumption | eauto].
  clear st Hinv Hpos Hrot Hbud Hfuel.
  intros st (Hinv & Hpos & Hrot & Hbud).
  destruct (build_body_spec st Hinv) as (q & Hb & Hinv' & Hpos' & He).
  pose proof (build_body_progress st _ Hrot Hb) as [Hrot' Hdec].
  pose proof (push_stick_closer (tmp_status st) (delta_x st)) as Hd.
  pose proof (press_rotation_lowers
                (fst (push_stick (tmp_status st) (delta_x st))) (rot st) Hrot) as Hr.
  eexists; split; [exact Hb|]. cbn [delta_x rot bq tmp_status] in *.
  pose proof (entries_length _ Hinv) as L. pose proof (entries_length _ Hinv') as L'.
  rewrite He, length_firstn, length_app in L'.
  change (Z.to_nat MOVE_QUEUE_MAX) with 10%nat in L'.
  destruct Hinv as (_ & Hp & _). pose proof Hinv' as (_ & Hp' & _).
  set (d' := snd (push_stick (tmp_status st) (delta_x st))) in *.
  set (r' := snd (press_rotation _ (rot st))) in *.
  destruct (more_to_do d' r') eqn:E.
  - split; [|auto]. unfold budget_inv; cbn [delta_x rot bq].
    repeat split; try apply Hinv'; try lia.
    unfold more_to_do in E. cbn [length] in L'.
    destruct (Z.eqb_spec d' 0), (Z.eqb_spec r' 0); simpl in E;
      try discriminate; lia.
  - unfold budget_post; cbn [tmp_status bq]. cbn [length] in L'.
    repeat split; try apply Hinv'; try lia.
Qed.

(** A valid move code leaves room for the last two appends. *)
Lemma build_queue_ends_neutral mq d r f :
  array_ok mq -> -2 <= d <= 2 -> 0 <= r <= 3 ->
  exists mq' front,
    build_queue mq d r f = Some mq' /\ pos mq' = 0 /\
    entries mq' = front ++ [neutral_entry].
Proof.
  intros Hlen Hd Hr. unfold build_queue.
  destruct (MoveQueue_clear_ok mq Hlen) as (q0 & -> & Hl0 & Hn0 & Hp0). cbn [bind].
  destruct (build_loop_budget 5 (build_fuel d r) (mkBuild initial_gc_status d r q0))
    as (st & -> & Hinv & Hpos & Htmp & Hn); cbn [bq rot delta_x];
    try assumption; try (unfold build_fuel, passes_left; simpl; lia).
  { unfold queue_inv, MOVE_QUEUE_MAX. repeat split; [assumption | lia..]. }
  { lia. }
  cbn [bind].
  assert (exists q1, (if f then MoveQueue_add_move (bq st) (set_stick_y (tmp_status st) 0) 8
                      else Some (bq st)) = Some q1 /\
                     queue_inv q1 /\ pos q1 = 0 /\ n q1 <= 6) as (q1 & -> & Hinv1 & Hp1 & Hn1).
  { destruct f.
    - destruct Hinv as (Hl & Hp & Hc).
      destruct (MoveQueue_add_move_room (bq st) (set_stick_y (tmp_status st) 0) 8 Hl)
        as (q1 & -> & Hl1 & Hn1 & Hp1 & _); [unfold MOVE_QUEUE_MAX; lia|].
      exists q1. repeat split; try assumption; try lia.
      unfold MOVE_QUEUE_MAX in *; lia.
    - exists (bq st). repeat split; try apply Hinv; try assumption; lia. }
  cbn [bind]. destruct Hinv1 as (Hl1 & Hpn1 & Hc1).
  destruct (MoveQueue_add_move_room q1 initial_gc_status 1 Hl1)
    as (q2 & -> & Hl2 & Hn2 & Hp2 & He2); [unfold MOVE_QUEUE_MAX; lia|].
  exists q2, (entries q1). repeat split; [congruence | exact He2].
Qed.

(** C1: for every move code whose displacement is between -2 and 2 (every
    rotation code, fast-drop set or not) the queue built from it is not empty
    and its last entry is the neutral state, sticks at 128, no button, triggers
    at 0, with repeat count 1. *)
Theorem valid_move_code_ends_neutral (mq : MoveQueue) (b : Z) :
  array_ok mq -> -2 <= decode_delta_x b <= 2 ->
  exists mq' front,
    on_move_code mq b = Some mq' /\
    entries mq' = front ++ [mkSlot (mkGCStatus 0 0 128 128 128 128 0 0) 1].
Proof.
  intros Hlen Hd. unfold on_move_code.
  destruct (build_queue_ends_neutral mq (decode_delta_x b) (decode_rot b)
              (decode_down_fast b) Hlen Hd (decode_rot_range b))
    as (mq' & front & Hb & _ & He).
  exists mq', front. split; [exact Hb | exact He].
Qed.

Lemma valid_move_code_ends_neutral_witness :
  array_ok move_queue_bss /\ -2 <= decode_delta_x 0x27 <= 2 /\
  exists mq' front,
    on_move_code move_queue_bss 0x27 = Some mq' /\
    entries mq' = front ++ [mkSlot (mkGCStatus 0 0 128 128 128 128 0 0) 1].
Proof.
  assert (H1 : array_ok move_queue_bss) by reflexivity.
  assert (H2 : -2 <= decode_delta_x 0x27 <= 2) by (vm_compute; split; discriminate).
  split; [exact H1|]. split; [exact H2|].
  exact (valid_move_code_ends_neutral move_queue_bss 0x27 H1 H2).
Defined.

(** * Building the queue: the do-while runs its body once at least *)

(** C3, as the code has it: displacement 0, rotation 0 and no fast drop give
    two entries, both neutral with repeat count 1: the one the loop body
    appends on its only pass, and the closing one. *)
Theorem still_move_code_two_entries (mq : MoveQueue) (b : Z) :
  array_ok mq ->
  decode_delta_x b = 0 -> decode_rot b = 0 -> decode_down_fast b = false ->
  exists mq',
    on_move_code mq b = Some mq' /\ n mq' = 2 /\ pos mq' = 0 /\
    entries mq' = [mkSlot initial_gc_status 1; mkSlot initial_gc_status 1].
Proof.
  intros Hlen Hd Hr Hf. unfold on_move_code. rewrite Hd, Hr, Hf.
  slots_of mq Hlen. eexists. split; [vm_compute; reflexivity|].
  repeat split.
Qed.

Lemma still_move_code_two_entries_witness :
  exists mq',
    on_move_code move_queue_bss 0x10 = Some mq' /\ n mq' = 2 /\ pos mq' = 0 /\
    entries mq' = [mkSlot initial_gc_status 1; mkSlot initial_gc_status 1].
Proof.
  apply (still_move_code_two_entries move_queue_bss 0x10); reflexivity.
Defined.

(** The move code 0x10 decodes to displacement 0, rotation 0, no fast drop,
    and the queue built from it does not consist of one entry. *)
Lemma still_move_code_not_one_entry :
  decode_delta_x 0x10 = 0 /\ decode_rot 0x10 = 0 /\ decode_down_fast 0x10 = false /\
  ~ (exists mq', on_move_code move_queue_bss 0x10 = Some mq' /\
                 entries mq' = [mkSlot initial_gc_status 1]).
Proof.
  repeat split. intros (mq' & Hb & He).
  vm_compute in Hb. injection Hb as <-. vm_compute in He. discriminate.
Qed.

(** C4, as the code has it: displacement +2, rotation 0 and no fast drop give
    four entries: stick right, neutral, stick right, and the closing neutral.
    The loop appends no release after its last press. *)
Theorem two_right_four_entries (mq : MoveQueue) (b : Z) :
  array_ok mq ->
  decode_delta_x b = 2 -> decode_rot b = 0 -> decode_down_fast b = false ->
  exists mq',
    on_move_code mq b = Some mq' /\ n mq' = 4 /\ pos mq' = 0 /\
    entries mq' =
      [mkSlot (mkGCStatus 0 0 255 128 128 128 0 0) 1;
       mkSlot (mkGCStatus 0 0 128 128 128 128 0 0) 1;
       mkSlot (mkGCStatus 0 0 255 128 128 128 0 0) 1;
       mkSlot (mkGCStatus 0 0 128 128 128 128 0 0) 1].
Proof.
  intros Hlen Hd Hr Hf. unfold on_move_code. rewrite Hd, Hr, Hf.
  slots_of mq Hlen. eexists. split; [vm_compute; reflexivity|].
  repeat split.
Qed.

Lemma two_right_four_entries_witness :
  exists mq',
    on_move_code move_queue_bss 0x20 = Some mq' /\ n mq' = 4 /\ pos mq' = 0 /\
    entries mq' =
      [mkSlot (mkGCStatus 0 0 255 128 128 128 0 0) 1;
       mkSlot (mkGCStatus 0 0 128 128 128 128 0 0) 1;
       mkSlot (mkGCStatus 0 0 255 128 128 128 0 0) 1;
       mkSlot (mkGCStatus 0 0 128 128 128 128 0 0) 1].
Proof.
  apply (two_right_four_entries move_queue_bss 0x20); reflexivity.
Defined.

(** The move code 0x20 decodes to displacement +2, rotation 0, no fast drop,
    and the queue built from it is not the five-entry sequence. *)
Lemma two_right_not_five_entries :
  decode_delta_x 0x20 = 2 /\ decode_rot 0x20 = 0 /\ decode_down_fast 0x20 = false /\
  ~ (exists mq', on_move_code move_queue_bss 0x20 = Some mq' /\
       entries mq' =
         [mkSlot (mkGCStatus 0 0 255 128 128 128 0 0) 1;
          mkSlot (mkGCStatus 0 0 128 128 128 128 0 0) 1;
          mkSlot (mkGCStatus 0 0 255 128 128 128 0 0) 1;
          mkSlot (mkGCStatus 0 0 128 128 128 128 0 0) 1;
          mkSlot (mkGCStatus 0 0 128 128 128 128 0 0) 1]).
Proof.
  repeat split. intros (mq' & Hb & He).
  vm_compute in Hb. injection Hb as <-. vm_compute in He. discriminate.
Qed.

Lemma entries_cleared q0 : n q0 = 0 -> entries q0 = [].
Proof. intros H. unfold entries. rewrite H. reflexivity. Qed.

Lemma cleared_inv q0 : array_ok q0 -> n q0 = 0 -> pos q0 = 0 -> queue_inv q0.
Proof.
  intros Hl Hn Hp. unfold queue_inv, MOVE_QUEUE_MAX. rewrite Hn, Hp.
  repeat split; [assumption | lia..].
Qed.

(** * Rotation buttons *)

Lemma Forall_firstn_keep {A : Type} (P : A -> Prop) (k : nat) (l : list A) :
  Forall P l -> Forall P (firstn k l).
Proof.
  intros H. revert k. induction H as [|x l Hx Hl IH]; intros [|k]; simpl;
    constructor; auto.
Qed.

Lemma filter_none {A : Type} (f : A -> bool) (l : list A) :
  Forall (fun x => f x = false) l -> filter f l = [].
Proof.
  induction 1 as [|x l Hx Hl IH]; simpl; [reflexivity|]. rewrite Hx. exact IH.
Qed.

Lemma press_rotation_clockwise tmp r c :
  0 <= r <= 2 -> data1 tmp = 0 -> data2 tmp = 0 ->
  no_button_but_x (mkSlot (fst (press_rotation tmp r)) c).
Proof.
  intros Hr H1 H2. unfold press_rotation, no_button_but_x.
  destruct (Z.eqb_spec r 1); [simpl; rewrite H1; auto|].
  destruct (Z.eqb_spec r 2); [simpl; rewrite H1; auto|].
  destruct (Z.eqb_spec r 3); [lia|]. simpl. auto.
Qed.

Lemma press_rotation_none tmp c :
  data1 tmp = 0 -> a_pressed (mkSlot (fst (press_rotation tmp 0)) c) = false.
Proof. intros H. unfold a_pressed. simpl. rewrite H. reflexivity. Qed.

Lemma press_rotation_anticlockwise tmp c :
  data1 tmp = 0 ->
  a_pressed (mkSlot (fst (press_rotation tmp 3)) c) = true /\
  snd (press_rotation tmp 3) = 0.
Proof. intros H. unfold a_pressed. simpl. rewrite H. split; reflexivity. Qed.

Lemma neutral_no_button : no_button_but_x neutral_entry.
Proof. unfold no_button_but_x; simpl; auto. Qed.

Section EveryEntry.

(** A property of entries that every append of the loop keeps, as long as
    the rotation count is at most [hi]. *)
Variable P : Slot -> Prop.
Variable hi : Z.
Hypothesis hi_le : hi <= 3.
Hypothesis P_pressed :
  forall d r, 0 <= r <= hi ->
    P (mkSlot (fst (press_rotation (fst (push_stick initial_gc_status d)) r)) 1).
Hypothesis P_neutral : P neutral_entry.
Hypothesis P_down : P (mkSlot (set_stick_y initial_gc_status 0) 8).

Lemma build_loop_every fuel st :
  queue_inv (bq st) -> pos (bq st) = 0 -> tmp_status st = initial_gc_status ->
  0 <= rot st <= hi -> Forall P (entries (bq st)) ->
  (passes_left st < fuel)%nat ->
  exists st', build_loop fuel st = Some st' /\
              queue_inv (bq st') /\ pos (bq st') = 0 /\
              tmp_status st' = initial_gc_status /\
              Forall P (entries (bq st')).
Proof.
  intros Hinv Hpos Htmp Hrot Hall Hfuel.
  destruct (build_loop_rule (every_inv P hi) (every_post P)) with (fuel := fuel) (st := st)
    as (st' & Hrun & HQ & _); [| unfold every_inv; auto | assumption | eauto].
  clear st Hinv Hpos Htmp Hrot Hall Hfuel.
  intros st (Hinv & Hpos & Htmp & Hrot & Hall).
  destruct (build_body_spec st Hinv) as (q & Hb & Hinv' & Hpos' & He).
  assert (Hrot3 : 0 <= rot st <= 3) by lia.
  pose proof (build_body_progress st _ Hrot3 Hb) as [_ Hdec].
  pose proof (press_rotation_lowers
                (fst (push_stick (tmp_status st) (delta_x st))) (rot st) Hrot3) as Hr.
  assert (Hall' : Forall P (entries q)).
  { rewrite He. apply Forall_firstn_keep, Forall_app. split; [assumption|].
    constructor; [rewrite Htmp; apply P_pressed; assumption|].
    destruct (more_to_do _ _); [constructor; [apply P_neutral|]|];
      constructor. }
  eexists; split; [exact Hb|]. cbn [delta_x rot bq tmp_status] in *.
  destruct (more_to_do _ _).
  - split; [|auto]. unfold every_inv; cbn [delta_x rot bq tmp_status].
    repeat split; try apply Hinv'; try assumption; lia.
  - unfold every_post; cbn [bq tmp_status].
    repeat split; try apply Hinv'; try assumption; lia.
Qed.

Lemma build_queue_every mq d r f :
  array_ok mq -> 0 <= r <= hi ->
  exists mq', build_queue mq d r f = Some mq' /\
              queue_inv mq' /\ pos mq' = 0 /\ Forall P (entries mq').
Proof.
  intros Hlen Hr. unfold build_queue.
  destruct (MoveQueue_clear_ok mq Hlen) as (q0 & -> & Hl0 & Hn0 & Hp0). cbn [bind].
  destruct (build_loop_every (build_fuel d r) (mkBuild initial_gc_status d r q0))
    as (st & -> & Hinv & Hpos & Htmp & Hall); cbn [bq rot delta_x tmp_status];
    try reflexivity; try assumption.
  { apply cleared_inv; assumption. }
  { rewrite entries_cleared by assumption. constructor. }
  { unfold build_fuel, passes_left; simpl; lia. }
  cbn [bind].
  assert (exists q1, (if f then MoveQueue_add_move (bq st) (set_stick_y (tmp_status st) 0) 8
                      else Some (bq st)) = Some q1 /\
                     queue_inv q1 /\ pos q1 = 0 /\ Forall P (entries q1))
    as (q1 & -> & Hinv1 & Hp1 & Hall1).
  { destruct f; [|eauto].
    destruct (MoveQueue_add_move_spec (bq st) (set_stick_y (tmp_status st) 0) 8 Hinv)
      as (q1 & -> & Hinv1 & Hp1 & He1).
    exists q1. repeat split; try apply Hinv1; [congruence|]. rewrite He1.
    apply Forall_firstn_keep, Forall_app. split; [assumption|].
    rewrite Htmp. repeat constructor. exact P_down. }
  cbn [bind].
  destruct (MoveQueue_add_move_spec q1 initial_gc_status 1 Hinv1)
    as (q2 & -> & Hinv2 & Hp2 & He2).
  exists q2. split; [reflexivity|]. split; [assumption|]. split; [congruence|].
  rewrite He2. apply Forall_firstn_keep, Forall_app. split; [assumption|].
  repeat constructor. exact P_neutral.
Qed.

End EveryEntry.

Lemma one_a_press_append (l added : list Slot) :
  one_a_press l -> Forall (fun x => a_pressed x = false) added ->
  one_a_press (firstn (Z.to_nat MOVE_QUEUE_MAX) (l ++ added)).
Proof.
  intros (e & rest & -> & He & Hrest) Hadd.
  exists e, (firstn 9 (rest ++ added)). split; [reflexivity|]. split; [assumption|].
  apply Forall_firstn_keep, Forall_app. split; assumption.
Qed.

Lemma build_loop_no_more_a fuel st :
  queue_inv (bq st) -> tmp_status st = initial_gc_status -> rot st = 0 ->
  one_a_press (entries (bq st)) ->
  (passes_left st < fuel)%nat ->
  exists st', build_loop fuel st = Some st' /\
              queue_inv (bq st') /\ tmp_status st' = initial_gc_status /\
              one_a_press (entries (bq st')).
Proof.
  intros Hinv Htmp Hrot Hone Hfuel.
  destruct (build_loop_rule released_inv released_post) with (fuel := fuel) (st := st)
    as (st' & Hrun & HQ & _); [| unfold released_inv; auto | assumption | eauto].
  clear st Hinv Htmp Hrot Hone Hfuel.
  intros st (Hinv & Htmp & Hrot & Hone).
  destruct (build_body_spec st Hinv) as (q & Hb & Hinv' & _ & He).
  assert (Hrot3 : 0 <= rot st <= 3) by lia.
  pose proof (build_body_progress st _ Hrot3 Hb) as [_ Hdec].
  pose proof (press_rotation_lowers
                (fst (push_stick (tmp_status st) (delta_x st))) (rot st) Hrot3) as Hr.
  assert (Hb1 : data1 (fst (push_stick (tmp_status st) (delta_x st))) = 0)
    by (rewrite (proj1 (push_stick_buttons _ _)), Htmp; reflexivity).
  assert (Hone' : one_a_press (entries q)).
  { rewrite He. apply one_a_press_append; [assumption|].
    constructor; [rewrite Hrot; apply press_rotation_none; assumption|].
    destruct (more_to_do _ _); repeat constructor. }
  eexists; split; [exact Hb|]. cbn [delta_x rot bq tmp_status] in *.
  destruct (more_to_do _ _).
  - split; [|auto]. unfold released_inv; cbn [delta_x rot bq tmp_status].
    repeat split; try apply Hinv'; try assumption; lia.
  - unfold released_post; cbn [bq tmp_status]. repeat split; try apply Hinv'; assumption.
Qed.

Lemma build_queue_clockwise mq d r f :
  array_ok mq -> r = 1 \/ r = 2 ->
  exists mq', build_queue mq d r f = Some mq' /\
              Forall no_button_but_x (entries mq').
Proof.
  intros Hlen Hr.
  destruct (build_queue_every no_button_but_x 2) with (mq := mq) (d := d) (r := r) (f := f)
    as (mq' & Hb & _ & _ & Hall); try assumption; try lia; eauto.
  - intros d0 r0 Hr0. apply press_rotation_clockwise; [assumption | |];
      rewrite ?(proj1 (push_stick_buttons _ _)), ?(proj2 (push_stick_buttons _ _));
      reflexivity.
  - apply neutral_no_button.
  - unfold no_button_but_x; simpl; auto.
Qed.

(** Whatever the byte, the queue is built, the cursor is at its first entry
    and every repeat count is 1 or 8. *)
Lemma on_move_code_playable mq b :
  array_ok mq ->
  exists mq', on_move_code mq b = Some mq' /\
              queue_inv mq' /\ pos mq' = 0 /\ Forall count_ok (entries mq').
Proof.
  intros Hlen. unfold on_move_code.
  apply (build_queue_every count_ok 3);
    [ lia
    | intros; unfold count_ok, UINT_MODULUS; simpl; lia
    | unfold count_ok, UINT_MODULUS; simpl; lia
    | unfold count_ok, UINT_MODULUS; simpl; lia
    | assumption
    | apply decode_rot_range ].
Qed.

Lemma build_queue_anticlockwise mq d f :
  array_ok mq ->
  exists mq' e rest,
    build_queue mq d 3 f = Some mq' /\ entries mq' = e :: rest /\
    a_pressed e = true /\ rest <> [] /\
    Forall (fun x => a_pressed x = false) rest.
Proof.
  intros Hlen. unfold build_queue.
  destruct (MoveQueue_clear_ok mq Hlen) as (q0 & -> & Hl0 & Hn0 & Hp0). cbn [bind].
  pose proof (cleared_inv q0 Hl0 Hn0 Hp0) as Hinv0.
  assert (exists st, build_loop (build_fuel d 3) (mkBuild initial_gc_status d 3 q0) = Some st /\
                     queue_inv (bq st) /\ tmp_status st = initial_gc_status /\
                     one_a_press (entries (bq st)))
    as (st & -> & Hinv & Htmp & Hone).
  { change (build_fuel d 3) with (S (Z.abs_nat d + Z.abs_nat 3)). cbn [build_loop].
    set (st0 := mkBuild initial_gc_status d 3 q0).
    destruct (build_body_spec st0 Hinv0) as (q & -> & Hinv' & _ & He).
    cbn [bind delta_x rot tmp_status bq st0] in *.
    rewrite (entries_cleared q0 Hn0) in He.
    pose proof (push_stick_closer initial_gc_status d) as Hd.
    destruct (press_rotation_anticlockwise (fst (push_stick initial_gc_status d)) 1)
      as [Ha Hr0];
      [rewrite (proj1 (push_stick_buttons _ _)); reflexivity|].
    rewrite Hr0 in *.
    assert (Hone : one_a_press (entries q)).
    { rewrite He. eexists _, _. split; [reflexivity|]. split; [exact Ha|].
      destruct (more_to_do _ _); repeat constructor. }
    destruct (more_to_do _ _) eqn:E; [|eauto 6].
    apply build_loop_no_more_a; cbn [bq rot delta_x tmp_status]; auto.
    unfold passes_left; cbn [delta_x rot]. cbv zeta in Hd. lia. }
  cbn [bind].
  assert (exists q1, (if f then MoveQueue_add_move (bq st) (set_stick_y (tmp_status st) 0) 8
                      else Some (bq st)) = Some q1 /\
                     queue_inv q1 /\ one_a_press (entries q1))
    as (q1 & -> & Hinv1 & Hone1).
  { destruct f; [|eauto].
    destruct (MoveQueue_add_move_spec (bq st) (set_stick_y (tmp_status st) 0) 8 Hinv)
      as (q1 & -> & Hinv1 & _ & He1).
    exists q1. repeat split; try apply Hinv1. rewrite He1.
    apply one_a_press_append; [assumption|].
    repeat constructor. rewrite Htmp. reflexivity. }
  cbn [bind].
  destruct (MoveQueue_add_move_spec q1 initial_gc_status 1 Hinv1)
    as (q2 & -> & Hinv2 & _ & He2).
  destruct Hone1 as (e & rest1 & E1 & Ha & Hrest).
  exists q2, e, (firstn 9 (rest1 ++ [neutral_entry])).
  split; [reflexivity|]. split; [rewrite He2, E1; reflexivity|].
  split; [assumption|]. split.
  - destruct rest1; simpl; discriminate.
  - apply Forall_firstn_keep, Forall_app. split; [assumption|].
    repeat constructor.
Qed.

(** With rotation code 1 or 2 the X button is pressed in the first entry and
    released in the second, the presses are as many as the rotation code,
    and no other button bit is set anywhere. *)
Lemma build_queue_clockwise_presses mq d r f :
  array_ok mq -> -2 <= d <= 5 -> r = 1 \/ r = 2 ->
  exists mq' e e' rest,
    build_queue mq d r f = Some mq' /\ entries mq' = e :: e' :: rest /\
    x_pressed e = true /\ x_pressed e' = false /\
    length (filter x_pressed (entries mq')) = Z.to_nat r /\
    Forall no_button_but_x (entries mq').
Proof.
  intros Hlen Hd Hr. slots_of mq Hlen.
  assert (Ed : d = -2 \/ d = -1 \/ d = 0 \/ d = 1 \/ d = 2 \/ d = 3 \/ d = 4 \/ d = 5)
    by lia.
  clear Hd.
  destruct Ed as [Ed|[Ed|[Ed|[Ed|[Ed|[Ed|[Ed|Ed]]]]]]]; destruct Hr as [Er|Er];
    rewrite Ed, Er; clear Ed Er; destruct f;
    (eexists _, _, _, _; split; [vm_compute; reflexivity|]);
    (split; [reflexivity|]); (split; [reflexivity|]); (split; [reflexivity|]);
    (split; [reflexivity|]);
    repeat (apply Forall_cons; [vm_compute; auto|]); apply Forall_nil.
Qed.

(** C5: with rotation code 3 the A button (anticlockwise) is set in one entry
    of the queue, the first, and the entry after it has it released; with
    rotation code 1 or 2 the X button (clockwise) is set in the first entry
    and released in the second, it is set in as many entries as the rotation
    code says, and no button bit other than X is set in any entry. *)
Theorem rotation_code_buttons (mq : MoveQueue) (b : Z) :
  array_ok mq ->
  (decode_rot b = 3 ->
   exists mq' e rest,
     on_move_code mq b = Some mq' /\ entries mq' = e :: rest /\
     a_pressed e = true /\ rest <> [] /\
     Forall (fun x => a_pressed x = false) rest /\
     length (filter a_pressed (entries mq')) = 1%nat) /\
  (decode_rot b = 1 \/ decode_rot b = 2 ->
   exists mq' e e' rest,
     on_move_code mq b = Some mq' /\ entries mq' = e :: e' :: rest /\
     x_pressed e = true /\ x_pressed e' = false /\
     length (filter x_pressed (entries mq')) = Z.to_nat (decode_rot b) /\
     Forall no_button_but_x (entries mq')).
Proof.
  intros Hlen. unfold on_move_code. split.
  - intros ->.
    destruct (build_queue_anticlockwise mq (decode_delta_x b) (decode_down_fast b) Hlen)
      as (mq' & e & rest & Hb & He & Ha & Hne & Hrest).
    exists mq', e, rest. repeat split; try assumption.
    rewrite He. simpl. rewrite Ha. simpl. rewrite (filter_none _ _ Hrest). reflexivity.
  - intros Hr. apply build_queue_clockwise_presses;
      [assumption | apply decode_delta_x_range | assumption].
Qed.

Lemma rotation_code_buttons_witness :
  (exists mq' e rest,
     on_move_code move_queue_bss 0x3f = Some mq' /\ entries mq' = e :: rest /\
     a_pressed e = true /\ rest <> [] /\
     Forall (fun x => a_pressed x = false) rest /\
     length (filter a_pressed (entries mq')) = 1%nat) /\
  (exists mq' e e' rest,
     on_move_code move_queue_bss 0x1c = Some mq' /\ entries mq' = e :: e' :: rest /\
     x_pressed e = true /\ x_pressed e' = false /\
     length (filter x_pressed (entries mq')) = 2%nat /\
     Forall no_button_but_x (entries mq')).
Proof.
  assert (H : array_ok move_queue_bss) by reflexivity.
  split.
  - apply (proj1 (rotation_code_buttons move_queue_bss 0x3f H)). reflexivity.
  - apply (proj2 (rotation_code_buttons move_queue_bss 0x1c H)). right. reflexivity.
Defined.

(** * Playback *)

Lemma live_split (q : list Slot) (nn p : nat) (s : Slot) (rest : list Slot) :
  skipn p (firstn nn q) = s :: rest ->
  (p < nn)%nat /\ nth_error q p = Some s /\
  firstn (nn - S p) (skipn (S p) q) = rest.
Proof.
  intros H.
  assert (Hp : (p < nn)%nat).
  { destruct (Nat.lt_ge_cases p nn) as [|Hge]; [assumption|].
    rewrite skipn_all2 in H; [discriminate|]. rewrite length_firstn. lia. }
  split; [assumption|]. split.
  - pose proof (hd_error_skipn p (firstn nn q)) as Hh. rewrite H in Hh. simpl in Hh.
    rewrite nth_error_firstn in Hh.
    destruct (Nat.ltb_spec p nn); [congruence | lia].
  - rewrite <- skipn_firstn_comm.
    change (S p) with (1 + p)%nat. rewrite <- skipn_skipn, H. reflexivity.
Qed.

Lemma MoveQueue_get_status_total mq :
  queue_inv mq -> exists g, MoveQueue_get_status mq = Some g.
Proof.
  intros (Hl & Hp & Hn). unfold MoveQueue_get_status.
  destruct ((pos mq <? 0) || (pos mq >=? n mq)) eqn:E; [eauto|].
  apply orb_false_elim in E as [E1 E2].
  destruct (Z.geb_spec (pos mq) (n mq)); [discriminate|].
  destruct (slot_read_some mq (pos mq) Hl) as (s & -> & _); [lia|].
  simpl. eauto.
Qed.

Lemma MoveQueue_get_status_drained mq :
  n mq <= pos mq -> MoveQueue_get_status mq = Some initial_gc_status.
Proof.
  intros H. unfold MoveQueue_get_status.
  destruct (Z.geb_spec (pos mq) (n mq)); [|lia].
  rewrite orb_true_r. reflexivity.
Qed.

Lemma MoveQueue_next_playing mq s rest :
  queue_inv mq -> live mq = s :: rest ->
  let c := (count s - 1) mod UINT_MODULUS in
  exists mq' g,
    MoveQueue_next mq = Some (mq', g) /\ queue_inv mq' /\ n mq' = n mq /\
    if c =? 0 then pos mq' = pos mq + 1 /\ live mq' = rest
    else pos mq' = pos mq /\ live mq' = mkSlot (status s) c :: rest.
Proof.
  intros Hinv Hlive c. pose proof Hinv as (Hl & Hp & Hn).
  unfold live, entries in Hlive.
  apply live_split in Hlive as (Hlt & Hnth & Hrest).
  assert (Hpn : pos mq < n mq) by lia.
  assert (Hread : slot_read (queue mq) (pos mq) = Some s).
  { unfold slot_read. rewrite in_array_true by lia. exact Hnth. }
  set (q' := upd (queue mq) (Z.to_nat (pos mq)) (mkSlot (status s) c)).
  set (mq' := mkMoveQueue q' (n mq) (if c =? 0 then pos mq + 1 else pos mq)).
  assert (Hinv' : queue_inv mq').
  { unfold queue_inv, array_ok, mq', q'. cbn [queue n pos]. rewrite length_upd.
    split; [exact Hl|]. destruct (c =? 0); lia. }
  destruct (MoveQueue_get_status_total mq' Hinv') as (g & Hg).
  exists mq', g. split.
  { unfold MoveQueue_next. destruct (Z.geb_spec (pos mq) (n mq)); [lia|].
    rewrite Hread. cbn [bind]. unfold slot_modify. rewrite Hread. cbn [bind].
    fold c q' mq'. rewrite Hg. reflexivity. }
  split; [assumption|]. split; [reflexivity|].
  assert (Hlen : (Z.to_nat (pos mq) < length (queue mq))%nat).
  { unfold array_ok, MOVE_QUEUE_MAX in Hl. unfold MOVE_QUEUE_MAX in Hn. lia. }
  unfold live, entries, mq', q'. cbn [queue n pos].
  destruct (c =? 0).
  - split; [reflexivity|].
    replace (Z.to_nat (pos mq + 1)) with (S (Z.to_nat (pos mq))) by lia.
    rewrite skipn_firstn_comm, skipn_upd_above by lia. exact Hrest.
  - split; [reflexivity|].
    rewrite skipn_firstn_comm, skipn_upd_at by assumption.
    replace (Z.to_nat (n mq) - Z.to_nat (pos mq))%nat
      with (S (Z.to_nat (n mq) - S (Z.to_nat (pos mq)))) by lia.
    rewrite firstn_cons, Hrest. reflexivity.
Qed.

Lemma MoveQueue_next_drained mq :
  queue_inv mq -> pos mq = n mq ->
  exists mq', MoveQueue_next mq = Some (mq', initial_gc_status) /\
              queue_inv mq' /\ cleared mq'.
Proof.
  intros (Hl & Hp & Hn) Hpn. unfold MoveQueue_next.
  destruct (Z.geb_spec (pos mq) (n mq)); [|lia].
  destruct (MoveQueue_clear_ok mq Hl) as (mq' & -> & Hl' & Hn' & Hp'). cbn [bind].
  rewrite MoveQueue_get_status_drained by lia. cbn [bind].
  exists mq'. split; [reflexivity|]. split; [apply cleared_inv; assumption|].
  split; assumption.
Qed.

Lemma advance_add a b mq :
  advance (a + b) mq = (mq' <- advance a mq ;; advance b mq').
Proof.
  revert mq; induction a as [|a IH]; intros mq; simpl; [reflexivity|].
  destruct (MoveQueue_next mq) as [[mq' g]|]; simpl; [apply IH | reflexivity].
Qed.

(** Playing one entry to its end takes as many calls as its repeat count. *)
Lemma advance_entry (c : nat) :
  forall mq s rest,
    queue_inv mq -> live mq = s :: rest ->
    count s = Z.of_nat (S c) -> count s < UINT_MODULUS ->
    exists mq', advance (S c) mq = Some mq' /\ queue_inv mq' /\
                n mq' = n mq /\ pos mq' = pos mq + 1 /\ live mq' = rest.
Proof.
  induction c as [|c IH]; intros mq s rest Hinv Hlive Hc Hmax;
    destruct (MoveQueue_next_playing mq s rest Hinv Hlive)
      as (mq1 & g & Hnext & Hinv1 & Hn1 & Hcase);
    unfold UINT_MODULUS in *;
    cbn [advance]; rewrite Hnext; cbn [bind fst].
  - rewrite Hc in Hcase. change ((Z.of_nat 1 - 1) mod 65536 =? 0) with true in Hcase.
    destruct Hcase as [Hp1 Hl1]. exists mq1. auto.
  - assert (Hm : (count s - 1) mod 65536 = Z.of_nat (S c)).
    { rewrite Hc. rewrite Z.mod_small; lia. }
    rewrite Hm in Hcase.
    destruct (Z.eqb_spec (Z.of_nat (S c)) 0) as [|_]; [lia|].
    destruct Hcase as [Hp1 Hl1].
    destruct (IH mq1 _ rest Hinv1 Hl1) as (mq2 & Hadv & Hinv2 & Hn2 & Hp2 & Hl2);
      [reflexivity | simpl; lia |].
    exists mq2. split; [exact Hadv|]. repeat split; try apply Hinv2; congruence.
Qed.

Lemma live_nil mq : queue_inv mq -> live mq = [] -> pos mq = n mq.
Proof.
  intros (Hl & Hp & Hn) H. apply (f_equal (@length Slot)) in H.
  unfold live, entries in H. rewrite length_skipn, length_firstn in H.
  unfold array_ok, MOVE_QUEUE_MAX in *. simpl in H. lia.
Qed.

(** Playing every entry from the cursor on takes the sum of their counts. *)
Lemma advance_live (l : list Slot) :
  forall mq,
    queue_inv mq -> live mq = l -> Forall count_ok l ->
    exists mq', advance (Z.to_nat (sum_counts l)) mq = Some mq' /\
                queue_inv mq' /\ n mq' = n mq /\ pos mq' = n mq.
Proof.
  induction l as [|s rest IH]; intros mq Hinv Hlive Hall.
  - exists mq. split; [reflexivity|]. split; [assumption|].
    split; [reflexivity | apply live_nil; assumption].
  - inversion Hall as [|? ? Hs Hrest]; subst. unfold count_ok in Hs.
    destruct (advance_entry (Z.to_nat (count s - 1)) mq s rest Hinv Hlive)
      as (mq1 & Hadv & Hinv1 & Hn1 & Hp1 & Hl1); [lia | lia |].
    destruct (IH mq1 Hinv1 Hl1 Hrest) as (mq2 & Hadv2 & Hinv2 & Hn2 & Hp2).
    assert (Hsum : 0 <= sum_counts rest).
    { clear -Hrest. induction Hrest as [|e l He Hl IHl]; unfold sum_counts in *;
        simpl; unfold count_ok in *; lia. }
    exists mq2. split.
    + unfold sum_counts in *. cbn [map fold_right].
      replace (Z.to_nat (count s + fold_right Z.add 0 (map count rest)))
        with (S (Z.to_nat (count s - 1)) +
              Z.to_nat (fold_right Z.add 0%Z (map count rest)))%nat
        by lia.
      rewrite advance_add, Hadv. cbn [bind]. exact Hadv2.
    + split; [assumption|]. split; congruence.
Qed.

(** Once the cursor is past the last entry, every further call clears. *)
Lemma advance_drained (k : nat) :
  forall mq,
    queue_inv mq -> pos mq = n mq ->
    exists mq', advance k mq = Some mq' /\ queue_inv mq' /\ pos mq' = n mq' /\
                (k <> 0%nat -> cleared mq').
Proof.
  induction k as [|k IH]; intros mq Hinv Hpn.
  - exists mq. repeat split; try apply Hinv; try assumption; congruence.
  - destruct (MoveQueue_next_drained mq Hinv Hpn) as (mq1 & Hnext & Hinv1 & Hn1 & Hp1).
    cbn [advance]. rewrite Hnext. cbn [bind fst].
    destruct (IH mq1 Hinv1) as (mq2 & Hadv & Hinv2 & Hpn2 & Hc2); [congruence|].
    exists mq2. split; [exact Hadv|]. split; [assumption|]. split; [assumption|].
    intros _. destruct k as [|k]; [|apply Hc2; discriminate].
    simpl in Hadv. injection Hadv as <-. split; assumption.
Qed.

(** C6, as the code has it: from a queue with the cursor at its first entry
    and repeat counts an [unsigned int] holds, none of them 0, as many
    [MoveQueue_next] calls as the sum of the repeat counts leave the cursor
    just past the last entry with the entry count unchanged; the call after
    that clears the queue.  [MoveQueue_get_status] gives the neutral state
    after the sum-th call and after any number of further calls. *)
Theorem advance_sum_of_counts (mq : MoveQueue) :
  queue_inv mq -> pos mq = 0 -> Forall count_ok (entries mq) ->
  exists drained,
    advance (Z.to_nat (sum_counts (entries mq))) mq = Some drained /\
    n drained = n mq /\ pos drained = n mq /\
    MoveQueue_get_status drained = Some initial_gc_status /\
    forall k, exists mq',
      advance (Z.to_nat (sum_counts (entries mq)) + k) mq = Some mq' /\
      MoveQueue_get_status mq' = Some initial_gc_status /\
      (k <> 0%nat -> cleared mq').
Proof.
  intros Hinv Hpos Hall.
  assert (Hlive : live mq = entries mq) by (unfold live; rewrite Hpos; reflexivity).
  destruct (advance_live (entries mq) mq Hinv Hlive Hall)
    as (drained & Hadv & Hinv1 & Hn1 & Hp1).
  exists drained. split; [assumption|]. split; [assumption|]. split; [assumption|].
  split; [apply MoveQueue_get_status_drained; lia|].
  intros k. rewrite advance_add, Hadv. cbn [bind].
  destruct (advance_drained k drained Hinv1) as (mq' & Hk & Hinv' & Hpn & Hc);
    [congruence|].
  exists mq'. split; [assumption|].
  split; [apply MoveQueue_get_status_drained; lia | assumption].
Qed.

(** The queue a still move code with fast drop builds: neutral, stick down
    for 8 polls, neutral. *)
Lemma advance_sum_of_counts_witness :
  exists q drained,
    on_move_code move_queue_bss 0x11 = Some q /\
    sum_counts (entries q) = 10 /\
    advance (Z.to_nat (sum_counts (entries q))) q = Some drained /\
    n drained = n q /\ pos drained = n q /\
    MoveQueue_get_status drained = Some initial_gc_status /\
    forall k, exists mq',
      advance (Z.to_nat (sum_counts (entries q)) + k) q = Some mq' /\
      MoveQueue_get_status mq' = Some initial_gc_status /\
      (k <> 0%nat -> cleared mq').
Proof.
  destruct (on_move_code move_queue_bss 0x11) as [q|] eqn:E; [|discriminate E].
  injection E as E.
  assert (Hinv : queue_inv q).
  { subst q. split; [reflexivity|]. vm_compute. intuition discriminate. }
  assert (Hpos : pos q = 0) by (subst q; reflexivity).
  assert (Hall : Forall count_ok (entries q)).
  { subst q. repeat constructor; vm_compute; discriminate. }
  destruct (advance_sum_of_counts q Hinv Hpos Hall) as (drained & H).
  exists q, drained. split; [reflexivity|]. split; [subst q; reflexivity | exact H].
Defined.

(** The queue built from the move code 0x10 holds two entries of repeat
    count 1; after two [MoveQueue_next] calls it still holds two entries:
    it is not in the cleared state. *)
Lemma drained_is_not_cleared :
  exists mq mq',
    on_move_code move_queue_bss 0x10 = Some mq /\ pos mq = 0 /\
    advance (Z.to_nat (sum_counts (entries mq))) mq = Some mq' /\
    n mq' = 2 /\ ~ cleared mq'.
Proof.
  eexists. eexists. split; [vm_compute; reflexivity|]. split; [reflexivity|].
  split; [vm_compute; reflexivity|]. split; [reflexivity|].
  unfold cleared. simpl. intros [H _]. discriminate.
Qed.

(** * The invariant of the queue *)

Lemma MoveQueue_next_inv mq :
  queue_inv mq ->
  exists mq' g, MoveQueue_next mq = Some (mq', g) /\ queue_inv mq'.
Proof.
  intros Hinv. destruct (live mq) as [|s rest] eqn:E.
  - destruct (MoveQueue_next_drained mq Hinv (live_nil mq Hinv E))
      as (mq' & Hnext & Hinv' & _).
    eauto.
  - destruct (MoveQueue_next_playing mq s rest Hinv E)
      as (mq' & g & Hnext & Hinv' & _).
    eauto.
Qed.

Lemma apply_op_inv op mq :
  queue_inv mq -> exists mq', apply_op op mq = Some mq' /\ queue_inv mq'.
Proof.
  intros Hinv. destruct op as [|st c| |]; cbn [apply_op].
  - destruct (MoveQueue_clear_ok mq (proj1 Hinv)) as (mq' & -> & Hl & Hn & Hp).
    exists mq'. split; [reflexivity | apply cleared_inv; assumption].
  - destruct (MoveQueue_add_move_spec mq st c Hinv) as (mq' & -> & Hinv' & _).
    eauto.
  - destruct (MoveQueue_get_status_total mq Hinv) as (g & ->). cbn [bind]. eauto.
  - destruct (MoveQueue_next_inv mq Hinv) as (mq' & g & -> & Hinv').
    cbn [bind fst]. eauto.
Qed.

Lemma apply_ops_inv ops :
  forall mq, queue_inv mq -> exists mq', apply_ops ops mq = Some mq' /\ queue_inv mq'.
Proof.
  induction ops as [|op rest IH]; intros mq Hinv; cbn [apply_ops].
  - eauto.
  - destruct (apply_op_inv op mq Hinv) as (mq1 & -> & Hinv1). cbn [bind].
    apply IH. assumption.
Qed.

(** C10: from the cleared queue every run of clear, append, current and
    advance goes through without an access outside the array and ends in a
    queue with [0 <= pos <= n <= MOVE_QUEUE_MAX]; [MoveQueue_get_status]
    returns a state there, the neutral one when the cursor is out of range. *)
Theorem queue_ops_keep_invariant (mq0 : MoveQueue) (ops : list QueueOp) :
  array_ok mq0 ->
  exists start mq g,
    MoveQueue_clear mq0 = Some start /\
    apply_ops ops start = Some mq /\
    array_ok mq /\ 0 <= pos mq /\ pos mq <= n mq /\ n mq <= MOVE_QUEUE_MAX /\
    MoveQueue_get_status mq = Some g /\
    (pos mq < 0 \/ n mq <= pos mq -> g = initial_gc_status).
Proof.
  intros Hlen.
  destruct (MoveQueue_clear_ok mq0 Hlen) as (start & Hclear & Hl & Hn & Hp).
  destruct (apply_ops_inv ops start (cleared_inv start Hl Hn Hp)) as (mq & Hrun & Hinv).
  destruct (MoveQueue_get_status_total mq Hinv) as (g & Hg).
  exists start, mq, g. destruct Hinv as (Hl' & Hp' & Hn').
  repeat split; try assumption; try lia.
  intros Hout. rewrite MoveQueue_get_status_drained in Hg by lia. congruence.
Qed.

Lemma queue_ops_keep_invariant_witness :
  exists start mq g,
    MoveQueue_clear move_queue_bss = Some start /\
    apply_ops [OpAppend initial_gc_status 1; OpCurrent; OpAdvance; OpAdvance; OpClear]
              start = Some mq /\
    array_ok mq /\ 0 <= pos mq /\ pos mq <= n mq /\ n mq <= MOVE_QUEUE_MAX /\
    MoveQueue_get_status mq = Some g /\
    (pos mq < 0 \/ n mq <= pos mq -> g = initial_gc_status).
Proof.
  apply (queue_ops_keep_invariant move_queue_bss). reflexivity.
Defined.

(** A queue filled to capacity by ten appends. *)
Lemma add_move_at_capacity_witness :
  exists full,
    apply_ops (repeat (OpAppend initial_gc_status 1) 10) move_queue_bss = Some full /\
    n full = MOVE_QUEUE_MAX /\
    MoveQueue_add_move full (set_stick_y initial_gc_status 0) 8 = Some full.
Proof.
  destruct (apply_ops (repeat (OpAppend initial_gc_status 1) 10) move_queue_bss)
    as [full|] eqn:E; [|discriminate E].
  injection E as E.
  assert (Hn : n full = MOVE_QUEUE_MAX) by (subst full; reflexivity).
  exists full. split; [reflexivity|]. split; [exact Hn|].
  exact (add_move_at_capacity full (set_stick_y initial_gc_status 0) 8 Hn).
Defined.

(** * Receiving: the wait for the falling edge *)

Section FirstWait.

Variable line : nat -> bool.

(** While the line is read high, the block at [L_1] leads back to [L_1]:
    also when the counter in [r24] has just reached 0. *)
Lemma avr_step_L_1_high (s : Avr) :
  pc s = L_1 -> line (reads s) = true ->
  pc (avr_step line s) = L_1 /\ reads (avr_step line s) = S (reads s) /\
  retval (avr_step line s) = retval s /\
  r24 (avr_step line s) = (r24 s - 1) mod 256.
Proof.
  intros Hpc Hhigh. unfold avr_step. rewrite Hpc, Hhigh.
  destruct ((r24 s - 1) mod 256 =? 0); repeat split.
Qed.

Lemma avr_step_L_1_low (s : Avr) :
  pc s = L_1 -> line (reads s) = false -> pc (avr_step line s) = L_2.
Proof.
  intros Hpc Hlow. unfold avr_step. rewrite Hpc, Hlow. reflexivity.
Qed.

Lemma avr_steps_spin (k : nat) :
  forall s,
    pc s = L_1 ->
    (forall j, (j < k)%nat -> line (reads s + j) = true) ->
    pc (avr_steps line k s) = L_1 /\
    reads (avr_steps line k s) = (reads s + k)%nat /\
    retval (avr_steps line k s) = retval s.
Proof.
  induction k as [|k IH]; intros s Hpc Hhigh; cbn [avr_steps].
  - rewrite Nat.add_0_r. auto.
  - assert (H0 : line (reads s) = true).
    { rewrite <- (Nat.add_0_r (reads s)). apply Hhigh. lia. }
    destruct (avr_step_L_1_high s Hpc H0) as (Hpc' & Hreads' & Hret' & _).
    destruct (IH (avr_step line s) Hpc') as (H1 & H2 & H3).
    { intros j Hj. rewrite Hreads'. replace (S (reads s) + j)%nat
        with (reads s + S j)%nat by lia. apply Hhigh. lia. }
    rewrite H1, H2, H3, Hreads', Hret'. repeat split. lia.
Qed.

Lemma avr_run_steps (k : nat) :
  forall s,
    (forall j, (j <= k)%nat -> at_exit (avr_steps line j s) = false) ->
    avr_run line k s = None.
Proof.
  induction k as [|k IH]; intros s Hno; cbn [avr_run];
    pose proof (Hno 0%nat ltac:(lia)) as H0; cbn [avr_steps] in H0; rewrite H0.
  - reflexivity.
  - apply IH. intros j Hj. apply (Hno (S j)). lia.
Qed.

Lemma avr_steps_add (a b : nat) (s : Avr) :
  avr_steps line (a + b) s = avr_steps line b (avr_steps line a s).
Proof.
  revert s; induction a as [|a IH]; intros s; simpl; [reflexivity | apply IH].
Qed.

(** From the entry of [gc_get] the first [k] reads of a high line leave the
    code in the first wait. *)
Lemma gc_get_entry_spin (regs : Avr) (k : nat) :
  (forall j, (j < k)%nat -> line j = true) ->
  forall m, (m <= 2 + k)%nat ->
    at_exit (avr_steps line m (gc_get_entry regs)) = false /\
    ((2 <= m)%nat -> pc (avr_steps line m (gc_get_entry regs)) = L_1 /\
                      reads (avr_steps line m (gc_get_entry regs)) = (m - 2)%nat).
Proof.
  intros Hhigh m Hm.
  destruct m as [|[|m]]; [split; [reflexivity | lia] .. |].
  change (S (S m)) with (2 + m)%nat. rewrite avr_steps_add.
  set (s := avr_steps line 2 (gc_get_entry regs)).
  destruct (avr_steps_spin m s) as (Hpc & Hreads & _); [reflexivity | |].
  { intros j Hj. change (reads s) with 0%nat. apply Hhigh. lia. }
  change (reads s) with 0%nat in Hreads.
  unfold at_exit. rewrite Hpc. split; [reflexivity|]. intros _.
  split; [reflexivity|]. rewrite Hreads. simpl. lia.
Qed.

End FirstWait.

(** C2, as the code has it: the wait for the first falling edge has no
    iteration budget that ends it.  However many times the line is read high,
    [gc_get] has not returned and is still in that wait ([jmp L_1] follows the
    [brne L_1] of the counter); the read of the bit starts with the first read
    that finds the line low. *)
Theorem gc_get_first_wait_unbounded (line : nat -> bool) (regs : Avr) (k : nat) :
  (forall j, (j < k)%nat -> line j = true) ->
  gc_get line (2 + k) regs = None /\
  pc (avr_steps line (2 + k) (gc_get_entry regs)) = L_1 /\
  (line k = false -> pc (avr_steps line (3 + k) (gc_get_entry regs)) = L_2).
Proof.
  intros Hhigh.
  pose proof (gc_get_entry_spin line regs k Hhigh) as Hspin.
  destruct (Hspin (2 + k)%nat) as (_ & Hat); [lia|].
  destruct Hat as [Hpc Hreads]; [lia|].
  split; [|split].
  - unfold gc_get. rewrite avr_run_steps; [reflexivity|].
    intros j Hj. apply Hspin. lia.
  - exact Hpc.
  - intros Hlow. replace (3 + k)%nat with ((2 + k) + 1)%nat by lia.
    rewrite avr_steps_add. cbn [avr_steps]. apply avr_step_L_1_low; [exact Hpc|].
    rewrite Hreads. replace (2 + k - 2)%nat with k by lia. exact Hlow.
Qed.

(** A line that stays high for a thousand reads, far beyond the 64 the
    counter is loaded with. *)
Lemma gc_get_first_wait_unbounded_witness :
  gc_get line_idle (2 + 1000) power_on_regs = None /\
  pc (avr_steps line_idle (2 + 1000) (gc_get_entry power_on_regs)) = L_1 /\
  (line_idle 1000%nat = false ->
   pc (avr_steps line_idle (3 + 1000) (gc_get_entry power_on_regs)) = L_2).
Proof.
  apply (gc_get_first_wait_unbounded line_idle power_on_regs 1000).
  intros j Hj. reflexivity.
Defined.

(** On a line that stays high [gc_get] returns nothing, so it does not
    return 0. *)
Lemma gc_get_idle_never_returns :
  ~ (exists fuel r, gc_get line_idle fuel power_on_regs = Some r).
Proof.
  intros (fuel & r & H).
  assert (Hnone : gc_get line_idle fuel power_on_regs = None).
  { unfold gc_get. rewrite avr_run_steps; [reflexivity|].
    intros j Hj. apply (gc_get_entry_spin line_idle power_on_regs fuel); [reflexivity | lia]. }
  congruence.
Qed.

(** * Receiving: the wait for the rising edge, and a whole byte *)

Section SecondWait.

Variable line : nat -> bool.

(** The wait at [L_4] does give up: with [c] in [r24] and the line read low
    [c] times the code leaves with return value 0. *)
Lemma avr_run_L_4_low (c : nat) :
  forall s,
    pc s = L_4 -> r24 s = Z.of_nat (S c) -> (S c < 256)%nat ->
    (forall j, (j < S c)%nat -> line (reads s + j) = false) ->
    exists s', avr_run line (S c) s = Some s' /\ retval s' = 0.
Proof.
  induction c as [|c IH]; intros s Hpc Hr24 Hc Hlow;
    assert (H0 : line (reads s) = false)
      by (rewrite <- (Nat.add_0_r (reads s)); apply Hlow; lia);
    cbn [avr_run]; unfold at_exit at 1; rewrite Hpc;
    unfold avr_step; rewrite Hpc, H0, Hr24.
  - change ((Z.of_nat 1 - 1) mod 256 =? 0) with true. cbn [avr_run at_exit pc].
    eexists; repeat split.
  - assert (Hm : (Z.of_nat (S (S c)) - 1) mod 256 = Z.of_nat (S c))
      by (rewrite Z.mod_small; lia).
    rewrite Hm. destruct (Z.eqb_spec (Z.of_nat (S c)) 0) as [|_]; [lia|].
    apply IH; cbn [pc r24 reads]; try reflexivity; try lia.
    intros j Hj. replace (S (reads s) + j)%nat with (reads s + S j)%nat by lia.
    apply Hlow. lia.
Qed.

End SecondWait.

Lemma at_exit_stable (line : nat -> bool) (k : nat) :
  forall s, at_exit s = true -> avr_steps line k s = s.
Proof.
  induction k as [|k IH]; intros s H; cbn [avr_steps]; [reflexivity|].
  assert (Hs : avr_step line s = s).
  { unfold at_exit in H. unfold avr_step. destruct (pc s); try discriminate H.
    reflexivity. }
  rewrite Hs. apply IH. assumption.
Qed.

Lemma avr_run_skip (line : nat -> bool) (a b : nat) :
  forall s,
    at_exit (avr_steps line a s) = false ->
    avr_run line (a + b) s = avr_run line b (avr_steps line a s).
Proof.
  induction a as [|a IH]; intros s H; [reflexivity|].
  cbn [Nat.add avr_run avr_steps].
  destruct (at_exit s) eqn:E.
  - rewrite (at_exit_stable line (S a) s E) in H. congruence.
  - apply IH. exact H.
Qed.

(** The state when the first bit has been sampled and the rising edge is
    awaited. *)
Lemma gc_get_after_first_bit (line : nat -> bool) (regs : Avr) :
  line 0%nat = false ->
  let b := shift_in (r23 regs) (line 1%nat) in
  avr_steps line 5 (gc_get_entry regs) =
    mkAvr L_4 b 64 1 1 0 (ram_store (ram regs) 0 b) 2.
Proof.
  intros Hedge. cbv zeta. cbn [avr_steps]. unfold gc_get_entry.
  unfold avr_step at 5. cbn [pc r23 r24 r25 retval zreg ram reads].
  unfold avr_step at 4. cbn [pc r23 r24 r25 retval zreg ram reads].
  unfold avr_step at 3. cbn [pc r23 r24 r25 retval zreg ram reads].
  rewrite Hedge.
  unfold avr_step at 2. cbn [pc r23 r24 r25 retval zreg ram reads].
  change ((0 + 1) mod 256 =? 8) with false.
  change (Z.land ((0 + 1) mod 256) 7 =? 0) with false.
  cbv iota.
  unfold avr_step. cbn [pc r23 r24 r25 retval zreg ram reads].
  reflexivity.
Qed.

(** X1: the wait for the line to go high again is the bounded one: a line that
    goes low, is sampled once and is then read low 64 more times makes
    [gc_get] return 0. *)
Theorem gc_get_second_wait_times_out (line : nat -> bool) (regs : Avr) :
  line 0%nat = false ->
  (forall j, (2 <= j < 66)%nat -> line j = false) ->
  exists byte, gc_get line 69 regs = Some (0, byte).
Proof.
  intros Hedge Hlow. unfold gc_get.
  pose proof (gc_get_after_first_bit line regs Hedge) as H5. cbv zeta in H5.
  change 69%nat with (5 + 64)%nat.
  rewrite avr_run_skip by (rewrite H5; reflexivity).
  rewrite H5.
  match goal with
  | |- context [avr_run line 64 ?s5] =>
      destruct (avr_run_L_4_low line 63 s5) as (s' & -> & Hret);
        [reflexivity | reflexivity | lia | | rewrite Hret; eauto]
  end.
  intros j Hj. cbn [reads]. apply Hlow. lia.
Qed.

Lemma gc_get_second_wait_times_out_witness :
  exists byte,
    gc_get (line_of ([false; true] ++ repeat false 64)) 69 power_on_regs
      = Some (0, byte).
Proof.
  apply gc_get_second_wait_times_out; [reflexivity|].
  intros j Hj.
  do 66 (destruct j as [|j]; [try reflexivity; lia|]). lia.
Defined.

(** * Receiving a command byte *)

Lemma shift_in_spec (x : Z) (b : bool) :
  shift_in x b = (2 * x + Z.b2z b) mod 256.
Proof.
  unfold shift_in. cbv zeta.
  assert (He : (x * 2) mod 256 = 2 * (x mod 128)).
  { rewrite (Z.mul_comm x 2). change 256 with (2 * 128).
    rewrite Z.mul_mod_distr_l by lia. reflexivity. }
  pose proof (Z.mod_pos_bound x 128 ltac:(lia)) as Hb.
  assert (Hs : forall c, 0 <= c <= 1 -> (2 * x + c) mod 256 = 2 * (x mod 128) + c).
  { intros c Hc. rewrite <- He. rewrite <- Z.add_mod_idemp_l by lia.
    rewrite (Z.mul_comm 2 x). rewrite Z.mod_small; [reflexivity|]. rewrite He. lia. }
  destruct b; cbn [Z.b2z].
  - rewrite Hs by lia. rewrite He.
    assert (Hl : Z.land (2 * (x mod 128)) 1 = 0).
    { change 1 with (Z.ones 1) at 1. rewrite Z.land_ones by lia.
      change (2 ^ 1) with 2. rewrite Z.mul_comm. apply Z.mod_mul. lia. }
    rewrite <- (Z.lxor_lor _ _ Hl), <- (Z.add_nocarry_lxor _ _ Hl). reflexivity.
  - rewrite Hs by lia. rewrite He. lia.
Qed.

Lemma push_bits_linear (bits : list bool) :
  forall a,
    fold_left push_bit bits a =
    a * 2 ^ Z.of_nat (length bits) + fold_left push_bit bits 0.
Proof.
  induction bits as [|b bits IH]; intros a.
  - simpl. lia.
  - cbn [fold_left length]. rewrite (IH (push_bit a b)), (IH (push_bit 0 b)).
    rewrite Nat2Z.inj_succ, Z.pow_succ_r by lia. unfold push_bit. ring.
Qed.

Lemma push_bits_bound (bits : list bool) :
  forall a, 0 <= a ->
    0 <= fold_left push_bit bits a < (a + 1) * 2 ^ Z.of_nat (length bits).
Proof.
  induction bits as [|b bits IH]; intros a Ha.
  - simpl. lia.
  - cbn [fold_left length]. rewrite Nat2Z.inj_succ, Z.pow_succ_r by lia.
    assert (Hb : 0 <= Z.b2z b <= 1) by (destruct b; simpl; lia).
    assert (Hp : 0 < 2 ^ Z.of_nat (length bits)) by (apply Z.pow_pos_nonneg; lia).
    destruct (IH (push_bit a b)) as [H1 H2]; [unfold push_bit; lia|].
    unfold push_bit in *. split; [assumption | nia].
Qed.

Lemma shift_in_bits_mod (bits : list bool) :
  forall x,
    (fold_left shift_in bits x) mod 256 = (fold_left push_bit bits x) mod 256.
Proof.
  induction bits as [|b bits IH]; intros x; [reflexivity|].
  cbn [fold_left]. rewrite IH, shift_in_spec. fold (push_bit x b).
  rewrite (push_bits_linear bits (push_bit x b mod 256)),
          (push_bits_linear bits (push_bit x b)).
  rewrite <- Z.add_mod_idemp_l, Z.mul_mod_idemp_l, Z.add_mod_idemp_l by lia.
  reflexivity.
Qed.

(** Eight shifts leave nothing of what [r23] held before. *)
Lemma shift_in_byte (x : Z) (b7 b6 b5 b4 b3 b2 b1 b0 : bool) :
  fold_left shift_in [b7; b6; b5; b4; b3; b2; b1; b0] x =
  byte_of_bits [b7; b6; b5; b4; b3; b2; b1; b0].
Proof.
  set (bits := [b7; b6; b5; b4; b3; b2; b1; b0]).
  pose proof (shift_in_bits_mod bits x) as H.
  rewrite (push_bits_linear bits x) in H.
  pose proof (push_bits_bound bits 0 ltac:(lia)) as Hb.
  change (Z.of_nat (length bits)) with 8 in *. change (2 ^ 8) with 256 in *.
  rewrite Z.add_comm, Z.mod_add, (Z.mod_small (fold_left push_bit bits 0)) in H by lia.
  unfold byte_of_bits. rewrite <- H. symmetry. apply Z.mod_small.
  unfold bits. cbn [fold_left]. rewrite shift_in_spec.
  apply Z.mod_pos_bound. lia.
Qed.

Section ReceiveBits.

Variable line : nat -> bool.

Lemma receive_bit (s : Avr) (k x : Z) (t : nat) :
  awaiting_bit s k x t -> 0 <= k < 7 ->
  line t = false -> line (S (S t)) = true ->
  awaiting_bit (avr_steps line 5 s) (k + 1) (shift_in x (line (S t))) (S (S (S t))).
Proof.
  intros (Hpc & Hk & Hx & Hz & Hret & Ht) Hrange Hfall Hrise.
  destruct s as [pc0 a b c d z m t0]. cbn [pc r23 r24 r25 retval zreg ram reads] in *.
  subst. cbn [avr_steps].
  unfold avr_step at 5. cbn [pc r23 r24 r25 retval zreg ram reads].
  unfold avr_step at 4. cbn [pc r23 r24 r25 retval zreg ram reads].
  rewrite Hfall.
  unfold avr_step at 3. cbn [pc r23 r24 r25 retval zreg ram reads].
  rewrite (Z.mod_small (k + 1) 256) by lia.
  destruct (Z.eqb_spec (k + 1) 8) as [|_]; [lia|].
  assert (Hlow : Z.land (k + 1) 7 = k + 1).
  { change 7 with (Z.ones 3). rewrite Z.land_ones by lia.
    apply Z.mod_small. change (2 ^ 3) with 8. lia. }
  rewrite Hlow. destruct (Z.eqb_spec (k + 1) 0) as [|_]; [lia|].
  unfold avr_step at 2. cbn [pc r23 r24 r25 retval zreg ram reads].
  unfold avr_step. cbn [pc r23 r24 r25 retval zreg ram reads].
  rewrite Hrise. cbn [pc r23 r24 r25 retval zreg ram reads].
  repeat split.
Qed.

Lemma receive_last_bit (s : Avr) (x : Z) (t : nat) :
  awaiting_bit s 7 x t -> line t = false ->
  at_exit (avr_steps line 3 s) = true /\
  retval (avr_steps line 3 s) = 1 /\
  ram (avr_steps line 3 s) 0 = shift_in x (line (S t)).
Proof.
  intros (Hpc & Hk & Hx & Hz & Hret & Ht) Hfall.
  destruct s as [pc0 a b c d z m t0]. cbn [pc r23 r24 r25 retval zreg ram reads] in *.
  subst.
  assert (E : avr_steps line 3 (mkAvr L_read_loop x b 7 1 0 m t) =
              mkAvr L_exit (shift_in x (line (S t))) 64 8 1 0
                    (ram_store m 0 (shift_in x (line (S t)))) (S (S t))).
  { cbn [avr_steps].
    unfold avr_step at 3. cbn [pc r23 r24 r25 retval zreg ram reads].
    unfold avr_step at 2. cbn [pc r23 r24 r25 retval zreg ram reads].
    rewrite Hfall.
    unfold avr_step. cbn [pc r23 r24 r25 retval zreg ram reads].
    change ((7 + 1) mod 256 =? 8) with true. reflexivity. }
  rewrite E. repeat split.
Qed.

Lemma avr_run_exit (k : nat) :
  forall s,
    at_exit (avr_steps line k s) = true ->
    avr_run line k s = Some (avr_steps line k s).
Proof.
  induction k as [|k IH]; intros s H; cbn [avr_run avr_steps] in *.
  - rewrite H. reflexivity.
  - destruct (at_exit s) eqn:E.
    + change (avr_steps line k (avr_step line s)) with (avr_steps line (S k) s).
      rewrite (at_exit_stable line (S k) s E). reflexivity.
    + apply IH. exact H.
Qed.

End ReceiveBits.

(** The eight reads that sample the bits are the reads 1, 4, ..., 22 when
    every wait ends at its first read. *)
Lemma gc_get_samples_eight_bits (line : nat -> bool) (regs : Avr) :
  (forall i, (i < 8)%nat -> line (3 * i)%nat = false) ->
  (forall i, (i < 7)%nat -> line (3 * i + 2)%nat = true) ->
  gc_get line 39 regs =
    Some (1, byte_of_bits [line 1%nat; line 4%nat; line 7%nat; line 10%nat;
                           line 13%nat; line 16%nat; line 19%nat; line 22%nat]).
Proof.
  intros Hfall Hrise. unfold gc_get.
  assert (H0 : awaiting_bit (avr_steps line 1 (gc_get_entry regs)) 0 (r23 regs) 0)
    by (repeat split).
  pose proof (receive_bit line _ _ _ _ H0 ltac:(lia) (Hfall 0%nat ltac:(lia))
                (Hrise 0%nat ltac:(lia))) as H1.
  pose proof (receive_bit line _ _ _ _ H1 ltac:(lia) (Hfall 1%nat ltac:(lia))
                (Hrise 1%nat ltac:(lia))) as H2.
  pose proof (receive_bit line _ _ _ _ H2 ltac:(lia) (Hfall 2%nat ltac:(lia))
                (Hrise 2%nat ltac:(lia))) as H3.
  pose proof (receive_bit line _ _ _ _ H3 ltac:(lia) (Hfall 3%nat ltac:(lia))
                (Hrise 3%nat ltac:(lia))) as H4.
  pose proof (receive_bit line _ _ _ _ H4 ltac:(lia) (Hfall 4%nat ltac:(lia))
                (Hrise 4%nat ltac:(lia))) as H5.
  pose proof (receive_bit line _ _ _ _ H5 ltac:(lia) (Hfall 5%nat ltac:(lia))
                (Hrise 5%nat ltac:(lia))) as H6.
  pose proof (receive_bit line _ _ _ _ H6 ltac:(lia) (Hfall 6%nat ltac:(lia))
                (Hrise 6%nat ltac:(lia))) as H7.
  destruct (receive_last_bit line _ _ _ H7 (Hfall 7%nat ltac:(lia)))
    as (Hexit & Hret & Hram).
  rewrite <- !avr_steps_add in Hexit, Hret, Hram.
  cbn [Nat.add] in Hexit, Hret, Hram.
  rewrite (avr_run_exit line 39 _ Hexit), Hret, Hram.
  do 2 f_equal. apply shift_in_byte.
Qed.

(** X2: a command byte put on the line bit by bit (read low at the falling edge,
    then at the level of the bit, then high again) is what [gc_get] leaves in
    [from_gc], most significant bit first, and [gc_get] returns 1, whatever
    the registers held before. *)
Theorem gc_get_receives_byte (line : nat -> bool) (regs : Avr) :
  (forall i, (i < 8)%nat -> line (3 * i)%nat = false) ->
  (forall i, (i < 7)%nat -> line (3 * i + 2)%nat = true) ->
  gc_get line 39 regs =
    Some (1, byte_of_bits [line 1%nat; line 4%nat; line 7%nat; line 10%nat;
                           line 13%nat; line 16%nat; line 19%nat; line 22%nat]).
Proof.
  intros Hfall Hrise. apply gc_get_samples_eight_bits; assumption.
Qed.

(** The origin command 0x41 on the line. *)
Lemma gc_get_receives_byte_witness :
  gc_get (line_of (line_of_bits [false; true; false; false; false; false; false; true]))
         39 power_on_regs
  = Some (1, 0x41).
Proof.
  apply (gc_get_receives_byte
           (line_of (line_of_bits [false; true; false; false; false; false; false; true]))
           power_on_regs);
    intros j Hj; do 8 (destruct j as [|j]; [reflexivity|]); lia.
Defined.

(** * Further facts about the serial branch and the whole pass *)

(** X3: fast drop with displacement 0 and rotation 0: the entry of the loop's
    only pass, the stick held down for 8 polls, the closing neutral. *)
Theorem fast_drop_entries (mq : MoveQueue) (b : Z) :
  array_ok mq ->
  decode_delta_x b = 0 -> decode_rot b = 0 -> decode_down_fast b = true ->
  exists mq',
    on_move_code mq b = Some mq' /\ pos mq' = 0 /\
    entries mq' =
      [mkSlot (mkGCStatus 0 0 128 128 128 128 0 0) 1;
       mkSlot (mkGCStatus 0 0 128 0 128 128 0 0) 8;
       mkSlot (mkGCStatus 0 0 128 128 128 128 0 0) 1].
Proof.
  intros Hlen Hd Hr Hf. unfold on_move_code. rewrite Hd, Hr, Hf.
  slots_of mq Hlen. eexists. split; [vm_compute; reflexivity|].
  repeat split.
Qed.

Lemma fast_drop_entries_witness :
  exists mq',
    on_move_code move_queue_bss 0x11 = Some mq' /\ pos mq' = 0 /\
    entries mq' =
      [mkSlot (mkGCStatus 0 0 128 128 128 128 0 0) 1;
       mkSlot (mkGCStatus 0 0 128 0 128 128 0 0) 8;
       mkSlot (mkGCStatus 0 0 128 128 128 128 0 0) 1].
Proof.
  apply (fast_drop_entries move_queue_bss 0x11); reflexivity.
Defined.

(** Every move code builds a queue that plays out in at most 17 calls of
    [MoveQueue_next]: nine entries of the loop and the fast drop of 8. *)
Lemma build_queue_counts mq d r f :
  array_ok mq -> -2 <= d <= 5 -> 0 <= r <= 3 ->
  exists q, build_queue mq d r f = Some q /\ queue_inv q /\ pos q = 0 /\
            Forall count_ok (entries q) /\ sum_counts (entries q) <= 17.
Proof.
  intros Hlen Hd Hr. slots_of mq Hlen.
  each_code d r Hd Hr; destruct f;
    (eexists; split; [vm_compute; reflexivity|]);
    (split; [split; [reflexivity | vm_compute; intuition discriminate]|]);
    (split; [reflexivity|]);
    (split; [repeat (apply Forall_cons; [vm_compute; split; [discriminate | reflexivity]|]);
             apply Forall_nil
            | vm_compute; discriminate]).
Qed.

Lemma build_queue_last mq d r f :
  array_ok mq -> -2 <= d <= 5 -> 0 <= r <= 3 ->
  exists q, build_queue mq d r f = Some q /\
    if (d =? 5) && f
    then n q = MOVE_QUEUE_MAX /\
         last (entries q) neutral_entry = mkSlot (set_stick_y initial_gc_status 0) 8
    else last (entries q) (mkSlot zero_status 0) = neutral_entry.
Proof.
  intros Hlen Hd Hr. slots_of mq Hlen.
  each_code d r Hd Hr; destruct f;
    (eexists; split; [vm_compute; reflexivity|]); vm_compute; auto.
Qed.

(** X4: for every byte and every previous content of the queue, the closing
    neutral entry (repeat 1) is the last entry of the queue built, except for
    the move codes with displacement code 7 (five steps right) and fast drop:
    there the loop leaves nine entries, the fast drop is the tenth, and the
    closing neutral is the append that [MoveQueue_add_move] drops. *)
Theorem closing_neutral_dropped_only_when_full (mq : MoveQueue) (b : Z) :
  array_ok mq ->
  exists q, on_move_code mq b = Some q /\
    if (decode_delta_x b =? 5) && decode_down_fast b
    then n q = MOVE_QUEUE_MAX /\
         last (entries q) neutral_entry = mkSlot (set_stick_y initial_gc_status 0) 8
    else last (entries q) (mkSlot zero_status 0) = neutral_entry.
Proof.
  intros Hlen. unfold on_move_code.
  apply build_queue_last;
    [assumption | apply decode_delta_x_range | apply decode_rot_range].
Qed.

(** The move code 0x39: five steps right, no rotation, fast drop. *)
Lemma closing_neutral_dropped_only_when_full_witness :
  exists q, on_move_code move_queue_bss 0x39 = Some q /\
    n q = MOVE_QUEUE_MAX /\
    last (entries q) neutral_entry = mkSlot (set_stick_y initial_gc_status 0) 8.
Proof.
  apply (closing_neutral_dropped_only_when_full move_queue_bss 0x39).
  reflexivity.
Defined.

(** X5: one pass of [loop] always goes through: the response is the one the
    command byte selects, computed from the state before the pass, and the
    queue invariant is kept, whatever the host sent. *)
Theorem loop_pass_total (from_gc : Z) (serial : option Z) (sk : Sketch) :
  queue_inv (move_queue sk) ->
  exists sk',
    loop from_gc serial sk = Some (respond from_gc (gc_status sk), sk') /\
    queue_inv (move_queue sk').
Proof.
  intros Hinv. unfold loop. destruct serial as [b|].
  - destruct (on_move_code_playable (move_queue sk) b (proj1 Hinv))
      as (mq' & -> & Hinv' & _). cbn [bind].
    destruct (MoveQueue_get_status_total mq' Hinv') as (g & ->). cbn [bind].
    eexists. split; [reflexivity | exact Hinv'].
  - destruct (i sk mod 5 =? 0).
    + destruct (MoveQueue_next_inv (move_queue sk) Hinv) as (mq' & g & -> & Hinv').
      cbn [bind fst snd]. eexists. split; [reflexivity | exact Hinv'].
    + eexists. split; [reflexivity | exact Hinv].
Qed.

Lemma loop_pass_total_witness :
  exists sk',
    loop 0x40 (Some 0x27) (mkSketch initial_gc_status move_queue_bss 0)
      = Some (respond 0x40 initial_gc_status, sk') /\
    queue_inv (move_queue sk').
Proof.
  apply (loop_pass_total 0x40 (Some 0x27) (mkSketch initial_gc_status move_queue_bss 0)).
  split; [reflexivity|]. vm_compute. intuition discriminate.
Defined.

(** * Transmitting: the wave form of [gc_send] *)

Lemma pulse_train_app (t : Z) (a b : list bool) :
  pulse_train t (a ++ b) =
  pulse_train t a ++ pulse_train (t + 64 * Z.of_nat (length a)) b.
Proof.
  revert t; induction a as [|x a IH]; intros t.
  - simpl. rewrite Z.add_0_r. reflexivity.
  - cbn [app pulse_train length]. rewrite IH. f_equal. f_equal. f_equal.
    f_equal. lia.
Qed.

Lemma testbit_after_lsl (x n : Z) :
  1 <= n <= 7 -> Z.testbit ((x * 2) mod 256) n = Z.testbit x (n - 1).
Proof.
  intros Hn. change 256 with (2 ^ 8). rewrite Z.mod_pow2_bits_low by lia.
  rewrite Z.mul_comm. replace n with (Z.succ (n - 1)) at 1 by lia.
  apply Z.double_bits_succ.
Qed.

Lemma shifted_out_byte (x : Z) : shifted_out 8 x = byte_bits x.
Proof.
  unfold byte_bits. cbn [shifted_out map].
  repeat (rewrite testbit_after_lsl by lia; cbn [Z.sub Z.add Z.opp Z.pos_sub Z.succ_double
                                                  Z.pred_double Z.double Pos.pred_double]).
  reflexivity.
Qed.

Section TransmitWave.

Variable buffer : Z -> Z.

Lemma send_within_refl s : send_within buffer 0 s s.
Proof. exists 0%nat. split; [lia | reflexivity]. Qed.

Lemma send_steps_add (a b : nat) (s : AvrSend) :
  send_steps buffer (a + b) s = send_steps buffer b (send_steps buffer a s).
Proof.
  revert s; induction a as [|a IH]; intros s; simpl; [reflexivity | apply IH].
Qed.

Lemma send_within_trans n m s1 s2 s3 :
  send_within buffer n s1 s2 -> send_within buffer m s2 s3 ->
  send_within buffer (n + m) s1 s3.
Proof.
  intros (k1 & H1 & E1) (k2 & H2 & E2). exists (k1 + k2)%nat.
  split; [lia|]. rewrite send_steps_add, E1. exact E2.
Qed.

Lemma send_within_step s : send_within buffer 1 s (send_step buffer s).
Proof. exists 1%nat. split; [lia | reflexivity]. Qed.

Lemma send_within_weaken n m s s' :
  (n <= m)%nat -> send_within buffer n s s' -> send_within buffer m s s'.
Proof. intros H (k & Hk & E). exists k. split; [lia | assumption]. Qed.

(** One bit: the falling edge two cycles into the block, the rising edge 16
    or 48 cycles later, and [finish_bit] 50 cycles after the block began. *)
Lemma send_bit x k l z c w :
  send_within buffer 2
    (mkAvrSend T_bit_loop x k l z c w)
    (mkAvrSend T_finish_bit ((x * 2) mod 256) k l z (c + 50)
       (w ++ pulse_train (c + 2) [Z.testbit x 7])).
Proof.
  destruct (Z.testbit x 7) eqn:E.
  - exists 1%nat. split; [lia|]. cbn [send_steps send_step tpc t25 t26 tlen tz clock wire].
    rewrite E. cbn [pulse_train]. rewrite <- app_assoc. cbn [app].
    replace (c + 2 + 1 + 1 + 12 + 2 + 30 + 2) with (c + 50) by lia.
    replace (c + 2 + 1 + 1 + 12 + 2) with (c + 2 + 16) by lia. reflexivity.
  - exists 2%nat. split; [lia|]. cbn [send_steps]. unfold send_step at 2.
    cbn [tpc t25 t26 tlen tz clock wire]. rewrite E.
    cbn [send_step tpc t25 t26 tlen tz clock wire pulse_train].
    rewrite <- app_assoc. cbn [app].
    replace (c + 2 + 1 + 2 + 43 + 2) with (c + 50) by lia.
    replace (c + 2 + 48) with (c + 50) by lia. reflexivity.
Qed.

(** The [S j] bits left of a byte, down to [load_next_byte]. *)
Lemma send_bits (j : nat) :
  forall x l z c w,
    (S j <= 8)%nat ->
    exists r,
      send_within buffer (3 * S j)
        (mkAvrSend T_bit_loop x (Z.of_nat (S j)) l z c w)
        (mkAvrSend T_load_next_byte r 0 l z (c + 64 * Z.of_nat j + 53)
           (w ++ pulse_train (c + 2) (shifted_out (S j) x))).
Proof.
  induction j as [|j IH]; intros x l z c w Hj.
  - exists ((x * 2) mod 256).
    apply (send_within_trans 2 1 _ _ _ (send_bit x _ l z c w)).
    exists 1%nat. split; [lia|].
    cbn [send_steps send_step tpc t25 t26 tlen tz clock wire shifted_out].
    change ((Z.of_nat 1 - 1) mod 256 =? 0) with true. cbv iota.
    change ((Z.of_nat 1 - 1) mod 256) with 0. f_equal. lia.
  - destruct (IH ((x * 2) mod 256) l z (c + 64)
                (w ++ pulse_train (c + 2) [Z.testbit x 7])) as (r & Hr); [lia|].
    exists r.
    apply (send_within_weaken (2 + (1 + 3 * S j))); [lia|].
    apply (send_within_trans 2 _ _ _ _ (send_bit x _ l z c w)).
    eapply send_within_trans; [apply send_within_step|].
    cbn [send_step tpc t25 t26 tlen tz clock wire].
    assert (Hk : (Z.of_nat (S (S j)) - 1) mod 256 = Z.of_nat (S j))
      by (rewrite Z.mod_small; lia).
    rewrite Hk. destruct (Z.eqb_spec (Z.of_nat (S j)) 0) as [|_]; [lia|].
    replace (c + 50 + 1 + 1 + 10 + 2) with (c + 64) by lia.
    replace (c + 64 * Z.of_nat (S j) + 53) with (c + 64 + 64 * Z.of_nat j + 53) by lia.
    replace (w ++ pulse_train (c + 2) (shifted_out (S (S j)) x))
      with ((w ++ pulse_train (c + 2) [Z.testbit x 7]) ++
            pulse_train (c + 64 + 2) (shifted_out (S j) ((x * 2) mod 256))).
    + exact Hr.
    + rewrite <- app_assoc. f_equal.
      change (shifted_out (S (S j)) x)
        with ([Z.testbit x 7] ++ shifted_out (S j) ((x * 2) mod 256)).
      rewrite pulse_train_app. cbn [length]. do 2 f_equal. lia.
Qed.

(** The [m] bytes still to send, the stop bit, and the end. *)
Lemma send_bytes (m : nat) :
  forall z c w r26,
    (m <= 255)%nat ->
    exists r k l,
      send_within buffer (26 * S m + 1)
        (mkAvrSend T_byte_loop (buffer z) r26 (Z.of_nat (S m) mod 256) z c w)
        (mkAvrSend T_done r k l (z + Z.of_nat m) (c + 512 * Z.of_nat (S m) + 19)
           (w ++ pulse_train (c + 3)
                   (flat_map byte_bits (bytes_from buffer z (S m)) ++ [true]))).
Proof.
  induction m as [|m IH]; intros z c w r26 Hm.
  - destruct (send_bits 7 (buffer z) (Z.of_nat 1 mod 256) z (c + 1) w) as (r & Hr); [lia|].
    exists r, 0, 0.
    apply (send_within_weaken (1 + (3 * 8 + (1 + 1)))); [lia|].
    eapply send_within_trans; [apply send_within_step|].
    cbn [send_step tpc t25 t26 tlen tz clock wire].
    eapply send_within_trans; [exact Hr|].
    eapply send_within_trans; [apply send_within_step|].
    cbn [send_step tpc t25 t26 tlen tz clock wire].
    change ((Z.of_nat 1 mod 256 - 1) mod 256 =? 0) with true. cbv iota.
    change ((Z.of_nat 1 mod 256 - 1) mod 256) with 0.
    exists 1%nat. split; [lia|].
    cbn [send_steps send_step tpc t25 t26 tlen tz clock wire].
    replace (z + Z.of_nat 0) with z by lia.
    replace (c + 512 * Z.of_nat 1 + 19)
      with (c + 1 + 64 * Z.of_nat 7 + 53 + 1 + 2 + 8 + 2 + 14 + 2) by lia.
    f_equal.
    cbn [bytes_from flat_map]. rewrite app_nil_r, <- shifted_out_byte.
    rewrite pulse_train_app, <- app_assoc.
    change (Z.of_nat (length (shifted_out 8 (buffer z)))) with 8.
    cbn [pulse_train].
    replace (c + 1 + 64 * Z.of_nat 7 + 53 + 1 + 2 + 8 + 2) with (c + 3 + 64 * 8) by lia.
    replace (c + 3 + 64 * 8 + 14 + 2) with (c + 3 + 64 * 8 + 16) by lia.
    replace (c + 1 + 2) with (c + 3) by lia. reflexivity.
  - destruct (send_bits 7 (buffer z) (Z.of_nat (S (S m)) mod 256) z (c + 1) w)
      as (r0 & Hr0); [lia|].
    destruct (IH (z + 1) (c + 512)
                (w ++ pulse_train (c + 1 + 2) (shifted_out 8 (buffer z))) 0)
      as (r & k & l & Hr); [lia|].
    exists r, k, l.
    apply (send_within_weaken (1 + (3 * 8 + (1 + (26 * S m + 1))))); [lia|].
    eapply send_within_trans; [apply send_within_step|].
    cbn [send_step tpc t25 t26 tlen tz clock wire].
    eapply send_within_trans; [exact Hr0|].
    eapply send_within_trans; [apply send_within_step|].
    cbn [send_step tpc t25 t26 tlen tz clock wire].
    assert (Hl : (Z.of_nat (S (S m)) mod 256 - 1) mod 256 = Z.of_nat (S m) mod 256).
    { rewrite Zminus_mod_idemp_l. f_equal. lia. }
    rewrite Hl.
    assert (Hnz : Z.of_nat (S m) mod 256 <> 0) by (rewrite Z.mod_small; lia).
    destruct (Z.eqb_spec (Z.of_nat (S m) mod 256) 0) as [|_]; [contradiction|].
    replace (c + 1 + 64 * Z.of_nat 7 + 53 + 1 + 1 + 2 + 2 + 2 + 2) with (c + 512) by lia.
    replace (z + Z.of_nat (S m)) with (z + 1 + Z.of_nat m) by lia.
    replace (c + 512 * Z.of_nat (S (S m)) + 19)
      with (c + 512 + 512 * Z.of_nat (S m) + 19) by lia.
    replace (w ++ pulse_train (c + 3)
                    (flat_map byte_bits (bytes_from buffer z (S (S m))) ++ [true]))
      with ((w ++ pulse_train (c + 1 + 2) (shifted_out 8 (buffer z))) ++
            pulse_train (c + 512 + 3)
              (flat_map byte_bits (bytes_from buffer (z + 1) (S m)) ++ [true])).
    + exact Hr.
    + change (bytes_from buffer z (S (S m)))
        with (buffer z :: bytes_from buffer (z + 1) (S m)).
      cbn [flat_map]. rewrite shifted_out_byte.
      rewrite <- (app_assoc (byte_bits (buffer z))).
      rewrite (pulse_train_app (c + 3) (byte_bits (buffer z))).
      change (Z.of_nat (length (byte_bits (buffer z)))) with 8.
      rewrite <- (app_assoc w).
      replace (c + 1 + 2) with (c + 3) by lia.
      replace (c + 3 + 64 * 8) with (c + 512 + 3) by lia. reflexivity.
Qed.

Lemma sent_all_stable (k : nat) :
  forall s, sent_all s = true -> send_steps buffer k s = s.
Proof.
  induction k as [|k IH]; intros s H; cbn [send_steps]; [reflexivity|].
  assert (Hs : send_step buffer s = s).
  { unfold sent_all in H. unfold send_step. destruct (tpc s); try discriminate H.
    reflexivity. }
  rewrite Hs. apply IH. assumption.
Qed.

Lemma send_run_done (fuel : nat) :
  forall s,
    sent_all (send_steps buffer fuel s) = true ->
    send_run buffer fuel s = Some (send_steps buffer fuel s).
Proof.
  induction fuel as [|fuel IH]; intros s H; cbn [send_run send_steps] in *.
  - rewrite H. reflexivity.
  - destruct (sent_all s) eqn:E.
    + change (send_steps buffer fuel (send_step buffer s))
        with (send_steps buffer (S fuel) s).
      rewrite (sent_all_stable (S fuel) s E). reflexivity.
    + apply IH. exact H.
Qed.

Lemma send_run_within n fuel s s' :
  send_within buffer n s s' -> sent_all s' = true -> (n <= fuel)%nat ->
  send_run buffer fuel s = Some s'.
Proof.
  intros (k & Hk & E) Hdone Hfuel.
  assert (Hs : send_steps buffer fuel s = s').
  { replace fuel with (k + (fuel - k))%nat by lia.
    rewrite send_steps_add, E. apply sent_all_stable. assumption. }
  rewrite send_run_done; rewrite Hs; [reflexivity | assumption].
Qed.

(** With [S m] in the length register, or 0 there when [S m] is 256. *)
Lemma gc_send_bytes (m fuel : nat) :
  (m <= 255)%nat -> (26 * S m + 2 <= fuel)%nat ->
  gc_send buffer (Z.of_nat (S m) mod 256) fuel =
    Some (pulse_train 5 (flat_map byte_bits (bytes_from buffer 0 (S m)) ++ [true])).
Proof.
  intros Hm Hfuel. unfold gc_send, gc_send_entry.
  destruct (send_bytes m 0 2 [] 0 Hm) as (r & k & l & Hr).
  assert (H : send_within buffer (1 + (26 * S m + 1))
                (mkAvrSend T_entry 0 0 (Z.of_nat (S m) mod 256) 0 0 []) _)
    by (eapply send_within_trans; [apply send_within_step | exact Hr]).
  rewrite (send_run_within _ fuel _ _ H); [reflexivity | reflexivity | lia].
Qed.

End TransmitWave.

(** * Transmitting: what [gc_send] puts on the line *)

(** X6: for a length from 1 to 255 [gc_send] sends the bytes of the buffer in
    order, each most significant bit first, and then a stop bit 1.  The first
    falling edge comes 5 cycles into the routine and the falling edges are
    64 cycles (4 us) apart all the way, across byte boundaries and before
    the stop bit; the line is low for 16 cycles for a 1 and for 48 for a 0. *)
Theorem gc_send_wave_form (buffer : Z -> Z) (length : Z) (fuel : nat) :
  1 <= length <= 255 ->
  (26 * Z.to_nat length + 2 <= fuel)%nat ->
  gc_send buffer length fuel =
    Some (pulse_train 5
            (flat_map byte_bits (bytes_from buffer 0 (Z.to_nat length)) ++ [true])).
Proof.
  intros Hlen Hfuel.
  pose proof (gc_send_bytes buffer (Z.to_nat length - 1) fuel) as H.
  replace (S (Z.to_nat length - 1)) with (Z.to_nat length) in H by lia.
  rewrite Z2Nat.id, Z.mod_small in H by lia.
  apply H; lia.
Qed.

(** The identification record: three bytes, 25 pulses. *)
Lemma gc_send_wave_form_witness :
  gc_send (fun a => nth (Z.to_nat a) identify_response 0) 3 80 =
    Some (pulse_train 5
            (flat_map byte_bits
               (bytes_from (fun a => nth (Z.to_nat a) identify_response 0) 0 3)
             ++ [true])).
Proof.
  apply (gc_send_wave_form (fun a => nth (Z.to_nat a) identify_response 0) 3 80).
  - lia.
  - lia.
Defined.

(** X7: with length 0 [gc_send] does not send nothing: the length register
    wraps from 0 to 255 after the first byte and 256 bytes go out, the bytes
    at offsets 0 to 255 from the buffer pointer, followed by the stop bit. *)
Theorem gc_send_length_zero (buffer : Z -> Z) (more : nat) :
  gc_send buffer 0 (26 * 256 + 2 + more) =
    Some (pulse_train 5 (flat_map byte_bits (bytes_from buffer 0 256) ++ [true])).
Proof.
  apply (gc_send_bytes buffer 255); lia.
Qed.

(** * Transmitting and receiving: the line in between *)

Lemma level_at_before (bits : list bool) (t0 t : Z) (cur : bool) :
  t < t0 -> level_at (pulse_train t0 bits) t cur = cur.
Proof.
  intros H. destruct bits as [|b rest]; [reflexivity|].
  cbn [pulse_train level_at]. destruct (Z.leb_spec t0 t); [lia | reflexivity].
Qed.

(** Within the [j]-th bit cell the line is low until the cell's rising edge
    and high after it. *)
Lemma level_at_pulse_train (bits : list bool) :
  forall t0 j b t cur,
    nth_error bits j = Some b ->
    t0 + 64 * Z.of_nat j <= t < t0 + 64 * Z.of_nat j + 64 ->
    level_at (pulse_train t0 bits) t cur =
      negb (t <? t0 + 64 * Z.of_nat j + (if b then 16 else 48)).
Proof.
  induction bits as [|b0 rest IH]; intros t0 j b t cur Hnth Ht.
  - destruct j; discriminate Hnth.
  - cbn [pulse_train level_at]. destruct j as [|j].
    + injection Hnth as ->. change (Z.of_nat 0) with 0 in *.
      rewrite Z.mul_0_r, Z.add_0_r in *.
      destruct (Z.leb_spec t0 t); [|lia].
      destruct (Z.leb_spec (t0 + (if b then 16 else 48)) t) as [H1|H1];
        destruct (Z.ltb_spec t (t0 + (if b then 16 else 48)));
        try (exfalso; lia);
        try (rewrite level_at_before by lia); reflexivity.
    + cbn [nth_error] in Hnth. rewrite Nat2Z.inj_succ in Ht.
      assert (Hd : 16 <= (if b0 then 16 else 48) <= 48) by (destruct b0; lia).
      destruct (Z.leb_spec t0 t); [|lia].
      destruct (Z.leb_spec (t0 + (if b0 then 16 else 48)) t); [|lia].
      rewrite (IH (t0 + 64) j b t true Hnth) by lia.
      rewrite Nat2Z.inj_succ. do 2 f_equal. lia.
Qed.

Lemma byte_of_byte_bits (x : Z) : 0 <= x < 256 -> byte_of_bits (byte_bits x) = x.
Proof.
  intros Hx. unfold byte_of_bits, byte_bits. cbn [map fold_left]. unfold push_bit.
  rewrite !Z.testbit_spec' by lia.
  change (2 ^ 7) with 128. change (2 ^ 6) with 64. change (2 ^ 5) with 32.
  change (2 ^ 4) with 16. change (2 ^ 3) with 8. change (2 ^ 2) with 4.
  change (2 ^ 1) with 2. change (2 ^ 0) with 1.
  Z.div_mod_to_equations. lia.
Qed.

(** * The sketch as a whole: what it reports *)

Lemma map_status_upd (q : list Slot) (p : nat) (s : Slot) (c : Z) :
  nth_error q p = Some s ->
  map status (upd q p (mkSlot (status s) c)) = map status q.
Proof.
  revert p; induction q as [|h t IH]; intros [|p] H; simpl in *; try discriminate.
  - injection H as ->. reflexivity.
  - f_equal. apply IH. assumption.
Qed.

Lemma Forall_reportable_map (l : list Slot) :
  Forall reportable_entry l <-> Forall reportable (map status l).
Proof. unfold reportable_entry. symmetry. apply Forall_map. Qed.

Lemma initial_reportable : reportable initial_gc_status.
Proof. unfold reportable; simpl. intuition lia. Qed.

Lemma pressed_reportable (d r : Z) :
  0 <= r <= 3 ->
  reportable_entry
    (mkSlot (fst (press_rotation (fst (push_stick initial_gc_status d)) r)) 1).
Proof.
  intros Hr. unfold reportable_entry, reportable, press_rotation, push_stick.
  destruct (d >? 0); [|destruct (d <? 0)];
    (destruct (Z.eqb_spec r 1); [|destruct (Z.eqb_spec r 2); [|destruct (Z.eqb_spec r 3)]]);
    simpl; intuition lia.
Qed.

Lemma on_move_code_reportable mq b :
  array_ok mq ->
  exists mq', on_move_code mq b = Some mq' /\ queue_inv mq' /\ pos mq' = 0 /\
              Forall reportable_entry (entries mq').
Proof.
  intros Hlen. unfold on_move_code.
  apply (build_queue_every reportable_entry 3);
    [ lia
    | intros; apply pressed_reportable; assumption
    | unfold reportable_entry, reportable; simpl; intuition lia
    | unfold reportable_entry, reportable; simpl; intuition lia
    | assumption
    | apply decode_rot_range ].
Qed.

(** The state [MoveQueue_get_status] returns is the neutral one or that of an
    entry. *)
Lemma MoveQueue_get_status_reportable mq g :
  queue_inv mq -> Forall reportable_entry (entries mq) ->
  MoveQueue_get_status mq = Some g -> reportable g.
Proof.
  intros (Hl & Hp & Hn) Hall. unfold MoveQueue_get_status.
  destruct ((pos mq <? 0) || (pos mq >=? n mq)) eqn:E.
  - intros Hret. injection Hret as <-. apply initial_reportable.
  - apply orb_false_elim in E as [_ E2].
    destruct (Z.geb_spec (pos mq) (n mq)) as [Hge|Hlt]; [discriminate|].
    unfold slot_read. rewrite in_array_true by lia.
    destruct (nth_error (queue mq) (Z.to_nat (pos mq))) as [s|] eqn:Es; [|discriminate].
    cbn [bind]. intros Hret. injection Hret as <-.
    rewrite Forall_forall in Hall. apply (Hall s).
    unfold entries. apply (nth_error_In _ (Z.to_nat (pos mq))).
    rewrite nth_error_firstn.
    destruct (Nat.ltb_spec (Z.to_nat (pos mq)) (Z.to_nat (n mq))) as [_|Hbad];
      [assumption | lia].
Qed.

(** [MoveQueue_next] changes repeat counts only, or empties the queue. *)
Lemma MoveQueue_next_reportable mq mq' g :
  queue_inv mq -> Forall reportable_entry (entries mq) ->
  MoveQueue_next mq = Some (mq', g) ->
  queue_inv mq' /\ Forall reportable_entry (entries mq') /\ reportable g.
Proof.
  intros Hinv Hall Hnext.
  destruct (MoveQueue_next_inv mq Hinv) as (mq1 & g1 & Hnext1 & Hinv1).
  rewrite Hnext in Hnext1. injection Hnext1 as <- <-.
  assert (Hall' : Forall reportable_entry (entries mq')).
  { unfold MoveQueue_next in Hnext. pose proof Hinv as (Hl & Hp & Hn).
    destruct (Z.geb_spec (pos mq) (n mq)).
    - destruct (MoveQueue_clear_ok mq Hl) as (q0 & Hc & _ & Hn0 & _).
      rewrite Hc in Hnext. cbn [bind] in Hnext.
      destruct (MoveQueue_get_status q0); [|discriminate].
      cbn [bind] in Hnext. injection Hnext as <- _.
      rewrite entries_cleared by assumption. constructor.
    - unfold slot_modify, slot_read in Hnext. rewrite in_array_true in Hnext by lia.
      destruct (nth_error (queue mq) (Z.to_nat (pos mq))) as [s|] eqn:Es;
        [|discriminate].
      cbn [bind] in Hnext.
      match type of Hnext with
      | context [MoveQueue_get_status ?m] => destruct (MoveQueue_get_status m)
      end; [|discriminate].
      cbn [bind] in Hnext. injection Hnext as <- _.
      apply Forall_reportable_map. unfold entries. cbn [queue n].
      rewrite <- firstn_map, (map_status_upd _ _ _ _ Es), firstn_map.
      apply Forall_reportable_map. exact Hall. }
  split; [assumption|]. split; [assumption|].
  apply (MoveQueue_get_status_reportable mq' g Hinv1 Hall').
  unfold MoveQueue_next in Hnext.
  destruct (if pos mq >=? n mq then MoveQueue_clear mq else _) as [m|]; [|discriminate].
  cbn [bind] in Hnext.
  destruct (MoveQueue_get_status m) as [g0|] eqn:Eg; [|discriminate].
  cbn [bind] in Hnext. injection Hnext as <- <-. exact Eg.
Qed.

Lemma respond_allowed (from_gc : Z) (g : GCStatus) :
  reportable g -> Forall allowed_buffer (sent (respond from_gc g)).
Proof.
  intros Hg. unfold respond, allowed_buffer.
  destruct (from_gc =? 0); [|destruct (from_gc =? 65); [|destruct (from_gc =? 64)]];
    cbn [sent]; try apply Forall_nil; (apply Forall_cons; [|apply Forall_nil]).
  - left; reflexivity.
  - right; left; reflexivity.
  - right; right. exists g. split; [assumption | reflexivity].
Qed.

Lemma loop_pass_inv (from_gc : Z) (serial : option Z) (sk : Sketch) :
  sketch_inv sk ->
  exists out sk',
    loop from_gc serial sk = Some (out, sk') /\ sketch_inv sk' /\
    out = respond from_gc (gc_status sk).
Proof.
  intros (Hinv & Hall & Hg). unfold loop. destruct serial as [b|].
  - destruct (on_move_code_reportable (move_queue sk) b (proj1 Hinv))
      as (mq' & -> & Hinv' & _ & Hall'). cbn [bind].
    destruct (MoveQueue_get_status_total mq' Hinv') as (g & Eg). rewrite Eg. cbn [bind].
    eexists _, _. split; [reflexivity|]. split; [|reflexivity].
    split; [exact Hinv'|]. split; [exact Hall'|].
    exact (MoveQueue_get_status_reportable mq' g Hinv' Hall' Eg).
  - destruct (i sk mod 5 =? 0).
    + destruct (MoveQueue_next_inv (move_queue sk) Hinv) as (mq' & g & Hnext & _).
      rewrite Hnext. cbn [bind fst snd].
      destruct (MoveQueue_next_reportable _ _ _ Hinv Hall Hnext) as (Hinv' & Hall' & Hg').
      eexists _, _. split; [reflexivity|]. split; [|reflexivity].
      split; [assumption|]. split; assumption.
    + eexists _, _. split; [reflexivity|]. split; [|reflexivity].
      split; [assumption|]. split; assumption.
Qed.

Lemma sent_app (a b : list BusAction) : sent (a ++ b) = sent a ++ sent b.
Proof.
  induction a as [|[us|buf] a IH]; simpl; [reflexivity | assumption |].
  f_equal. assumption.
Qed.

Lemma run_loop_inv (inputs : list (Z * option Z)) :
  forall sk,
    sketch_inv sk ->
    exists out sk',
      run_loop inputs sk = Some (out, sk') /\ sketch_inv sk' /\
      Forall allowed_buffer (sent out).
Proof.
  induction inputs as [|[from_gc serial] rest IH]; intros sk Hsk; cbn [run_loop].
  - exists [], sk. repeat split; try apply Hsk. constructor.
  - destruct (loop_pass_inv from_gc serial sk Hsk) as (out1 & sk1 & -> & Hsk1 & Hout).
    cbn [bind snd fst].
    destruct (IH sk1 Hsk1) as (out2 & sk2 & -> & Hsk2 & Hall2). cbn [bind snd fst].
    exists (out1 ++ out2), sk2. split; [reflexivity|]. split; [assumption|].
    rewrite sent_app. apply Forall_app. split; [|assumption].
    subst out1. apply respond_allowed. apply Hsk.
Qed.

Lemma setup_inv : exists start, setup = Some start /\ sketch_inv start.
Proof.
  unfold setup.
  destruct (MoveQueue_clear_ok move_queue_bss) as (mq & -> & Hl & Hn & Hp);
    [reflexivity|].
  cbn [bind]. eexists. split; [reflexivity|].
  split; [apply cleared_inv; assumption|]. cbn [move_queue gc_status].
  split; [rewrite entries_cleared by assumption; constructor|].
  apply initial_reportable.
Qed.

(** X9: from [setup] on, whatever command bytes the console sends and
    whatever bytes the host sends, every pass of [loop] goes through without
    an access outside the queue, the queue keeps [0 <= pos <= n <= 10], and
    the sketch sends nothing but the identification record, the origin
    record, and controller states with no button other than A or X, the stick
    at rest, fully left, fully right or fully down, and C-stick and triggers
    at rest. *)
Theorem sketch_sends_only_playable (inputs : list (Z * option Z)) :
  exists start out sk,
    setup = Some start /\
    run_loop inputs start = Some (out, sk) /\
    queue_inv (move_queue sk) /\ reportable (gc_status sk) /\
    Forall allowed_buffer (sent out).
Proof.
  destruct setup_inv as (start & Hsetup & Hinv).
  destruct (run_loop_inv inputs start Hinv) as (out & sk & Hrun & (Hq & _ & Hg) & Hall).
  exists start, out, sk.
  split; [exact Hsetup|]. split; [exact Hrun|]. split; [exact Hq|].
  split; [exact Hg | exact Hall].
Qed.

(** * Playback through [loop]: one advance every fifth poll *)

Lemma run_loop_app (a b : list (Z * option Z)) (sk : Sketch) :
  run_loop (a ++ b) sk =
  (r <- run_loop a sk ;; r' <- run_loop b (snd r) ;; Some (fst r ++ fst r', snd r')).
Proof.
  revert sk; induction a as [|[c s] a IH]; intros sk; cbn [run_loop app].
  - cbn [bind snd fst]. destruct (run_loop b sk) as [[out sk']|]; reflexivity.
  - destruct (loop c s sk) as [[out1 sk1]|]; cbn [bind snd fst]; [|reflexivity].
    rewrite IH. destruct (run_loop a sk1) as [[out2 sk2]|]; cbn [bind snd fst]; [|reflexivity].
    destruct (run_loop b sk2) as [[out3 sk3]|]; cbn [bind snd fst]; [|reflexivity].
    rewrite app_assoc. reflexivity.
Qed.

(** The state [MoveQueue_next] returns is the current one of the queue it
    leaves. *)
Lemma MoveQueue_next_status mq mq' g :
  MoveQueue_next mq = Some (mq', g) -> MoveQueue_get_status mq' = Some g.
Proof.
  unfold MoveQueue_next. intros Hnext.
  destruct (if pos mq >=? n mq then MoveQueue_clear mq else _) as [m|]; [|discriminate].
  cbn [bind] in Hnext.
  destruct (MoveQueue_get_status m) as [g0|] eqn:Eg; [|discriminate].
  cbn [bind] in Hnext. injection Hnext as <- <-. exact Eg.
Qed.

Lemma advance_succ k mq :
  advance (S k) mq = (mq' <- advance k mq ;; r <- MoveQueue_next mq' ;; Some (fst r)).
Proof.
  replace (S k) with (k + 1)%nat by lia. rewrite advance_add.
  destruct (advance k mq) as [mq'|]; cbn [bind advance]; [|reflexivity].
  destruct (MoveQueue_next mq') as [[m g]|]; reflexivity.
Qed.

(** A run of polls with nothing on the serial line, from a pass counter that
    is 1 past a multiple of 5 and does not wrap. *)
Lemma idle_polls_state (cmds : list Z) (sk : Sketch) :
  queue_inv (move_queue sk) ->
  MoveQueue_get_status (move_queue sk) = Some (gc_status sk) ->
  i sk mod 5 = 1 -> 0 <= i sk -> i sk + Z.of_nat (length cmds) < UINT_MODULUS ->
  exists out sk',
    run_loop (idle_polls cmds) sk = Some (out, sk') /\
    queue_inv (move_queue sk') /\
    advance (length cmds / 5) (move_queue sk) = Some (move_queue sk') /\
    MoveQueue_get_status (move_queue sk') = Some (gc_status sk') /\
    i sk' = i sk + Z.of_nat (length cmds).
Proof.
  intros Hinv Hg Hi Hi0. unfold UINT_MODULUS.
  induction cmds as [|c cmds IH] using rev_ind; intros Hlen.
  - exists [], sk. cbn. rewrite Z.add_0_r. auto.
  - rewrite length_app in Hlen |- *. cbn [length] in Hlen |- *.
    destruct (IH ltac:(lia)) as (out1 & sk1 & Hrun & Hinv1 & Hadv & Hg1 & Hi1).
    unfold idle_polls. rewrite map_app. fold (idle_polls cmds).
    rewrite run_loop_app, Hrun. cbn [bind snd fst map run_loop].
    unfold loop. rewrite Hi1.
    assert (Hdiv : if (i sk + Z.of_nat (length cmds)) mod 5 =? 0
                   then ((length cmds + 1) / 5 = S (length cmds / 5))%nat
                   else ((length cmds + 1) / 5 = length cmds / 5)%nat).
    { destruct (Z.eqb_spec ((i sk + Z.of_nat (length cmds)) mod 5) 0) as [E|E];
        cbv iota; lia. }
    assert (Hmod : (i sk + Z.of_nat (length cmds) + 1) mod 65536
                   = i sk + Z.of_nat (length cmds + 1)).
    { rewrite Z.mod_small; lia. }
    destruct ((i sk + Z.of_nat (length cmds)) mod 5 =? 0).
    + destruct (MoveQueue_next_inv (move_queue sk1) Hinv1) as (mq' & g & Hnext & Hinv').
      rewrite Hnext. cbn [bind snd fst]. unfold UINT_MODULUS. rewrite Hmod.
      eexists _, _. split; [reflexivity|]. cbn [move_queue gc_status i].
      split; [assumption|]. split.
      * rewrite Hdiv, advance_succ, Hadv. cbn [bind]. rewrite Hnext. reflexivity.
      * split; [exact (MoveQueue_next_status _ _ _ Hnext) | reflexivity].
    + cbn [bind snd fst]. unfold UINT_MODULUS. rewrite Hmod.
      eexists _, _. split; [reflexivity|]. cbn [move_queue gc_status i].
      split; [assumption|]. split; [rewrite Hdiv; assumption|].
      split; [assumption | reflexivity].
Qed.

(** The pass of [loop] that takes a move code. *)
Lemma move_code_pass (c0 b : Z) (sk0 : Sketch) :
  array_ok (move_queue sk0) ->
  exists q g,
    on_move_code (move_queue sk0) b = Some q /\
    MoveQueue_get_status q = Some g /\
    loop c0 (Some b) sk0 = Some (respond c0 (gc_status sk0), mkSketch g q 1) /\
    queue_inv q /\ pos q = 0 /\ Forall count_ok (entries q) /\
    sum_counts (entries q) <= 17.
Proof.
  intros Hlen. unfold on_move_code, loop.
  destruct (build_queue_counts (move_queue sk0) (decode_delta_x b) (decode_rot b)
              (decode_down_fast b) Hlen (decode_delta_x_range b) (decode_rot_range b))
    as (q & Hq & Hinv & Hpos & Hall & Hsum).
  destruct (MoveQueue_get_status_total q Hinv) as (g & Hg).
  exists q, g. unfold on_move_code. rewrite Hq. cbn [bind]. rewrite Hg. cbn [bind].
  repeat (split; [reflexivity || assumption|]). assumption.
Qed.

(** X10: after the pass that takes a move code, every fifth poll of the
    console advances the queue: when [m] polls have gone by with nothing on
    the serial line (the pass counter not wrapping), [MoveQueue_next] has been
    called [m / 5] times on the queue the move code built, the pass counter
    is [1 + m], and the controller state held for the next read command is
    the current one of the queue. *)
Theorem polls_after_move_code (sk0 : Sketch) (c0 b : Z) (cmds : list Z) :
  array_ok (move_queue sk0) -> 1 + Z.of_nat (length cmds) < UINT_MODULUS ->
  exists q out sk',
    on_move_code (move_queue sk0) b = Some q /\
    run_loop ((c0, Some b) :: idle_polls cmds) sk0 = Some (out, sk') /\
    advance (length cmds / 5) q = Some (move_queue sk') /\
    MoveQueue_get_status (move_queue sk') = Some (gc_status sk') /\
    i sk' = 1 + Z.of_nat (length cmds).
Proof.
  intros Hlen Hm. unfold UINT_MODULUS in Hm.
  destruct (move_code_pass c0 b sk0 Hlen) as (q & g & Hq & Hg & Hpass & Hinv & _).
  destruct (idle_polls_state cmds (mkSketch g q 1))
    as (out & sk' & Hrun & _ & Hadv & Hg' & Hi);
    [exact Hinv | exact Hg | reflexivity | cbn [i]; lia
    | cbn [i]; unfold UINT_MODULUS; lia |].
  exists q, (respond c0 (gc_status sk0) ++ out), sk'.
  split; [exact Hq|]. split.
  - cbn [run_loop]. rewrite Hpass. cbn [bind snd fst]. rewrite Hrun. reflexivity.
  - split; [exact Hadv|]. split; [exact Hg' | exact Hi].
Qed.

(** Two steps right (0x20), then eleven polls: two advances, the third entry
    (the second press) is the one reported. *)
Lemma polls_after_move_code_witness :
  exists q out sk',
    on_move_code move_queue_bss 0x20 = Some q /\
    run_loop ((0x40, Some 0x20) :: idle_polls (repeat 0x40 11))
             (mkSketch initial_gc_status move_queue_bss 0) = Some (out, sk') /\
    advance 2 q = Some (move_queue sk') /\
    MoveQueue_get_status (move_queue sk') = Some (gc_status sk') /\
    i sk' = 1 + 11.
Proof.
  apply (polls_after_move_code (mkSketch initial_gc_status move_queue_bss 0)
           0x40 0x20 (repeat 0x40 11)).
  - reflexivity.
  - reflexivity.
Defined.

(** Once the cursor is past the last entry and the neutral state is reported,
    polls change neither, whatever the pass counter. *)
Lemma idle_polls_drained (cmds : list Z) :
  forall sk,
    queue_inv (move_queue sk) -> pos (move_queue sk) = n (move_queue sk) ->
    gc_status sk = initial_gc_status ->
    exists out sk',
      run_loop (idle_polls cmds) sk = Some (out, sk') /\
      queue_inv (move_queue sk') /\ pos (move_queue sk') = n (move_queue sk') /\
      gc_status sk' = initial_gc_status.
Proof.
  induction cmds as [|c cmds IH]; intros sk Hinv Hpn Hg.
  - exists [], sk. auto.
  - cbn [idle_polls map run_loop]. fold (idle_polls cmds). unfold loop.
    destruct (i sk mod 5 =? 0).
    + destruct (MoveQueue_next_drained _ Hinv Hpn) as (mq' & -> & Hinv' & Hn' & Hp').
      cbn [bind snd fst].
      destruct (IH (mkSketch initial_gc_status mq' ((i sk + 1) mod UINT_MODULUS)))
        as (out & sk' & -> & H); [assumption | cbn [move_queue]; congruence | reflexivity |].
      cbn [bind snd fst]. eauto.
    + cbn [bind snd fst].
      destruct (IH (mkSketch (gc_status sk) (move_queue sk) ((i sk + 1) mod UINT_MODULUS)))
        as (out & sk' & -> & H); [assumption | assumption | assumption |].
      cbn [bind snd fst]. eauto.
Qed.

(** X11: every move is over after 85 polls: whatever byte the host sent as a
    move code and whatever the queue held before, once 85 or more polls have
    gone by with nothing on the serial line the cursor is past the last entry
    and the sketch reports the neutral state; this holds for any number of
    further polls, also across the wrap of the pass counter. *)
Theorem move_played_out_after_85_polls (sk0 : Sketch) (c0 b : Z) (cmds : list Z) :
  array_ok (move_queue sk0) -> (85 <= length cmds)%nat ->
  exists out sk',
    run_loop ((c0, Some b) :: idle_polls cmds) sk0 = Some (out, sk') /\
    gc_status sk' = initial_gc_status /\
    pos (move_queue sk') = n (move_queue sk').
Proof.
  intros Hlen Hm.
  destruct (move_code_pass c0 b sk0 Hlen)
    as (q & g & Hq & Hg & Hpass & Hinv & Hpos & Hall & Hsum).
  assert (Hsplit : cmds = firstn 85 cmds ++ skipn 85 cmds)
    by (symmetry; apply firstn_skipn).
  assert (Hl85 : length (firstn 85 cmds) = 85%nat) by (rewrite length_firstn; lia).
  destruct (idle_polls_state (firstn 85 cmds) (mkSketch g q 1))
    as (out1 & sk1 & Hrun1 & Hinv1 & Hadv1 & Hg1 & Hi1);
    [exact Hinv | exact Hg | reflexivity | cbn [i]; lia
    | cbn [i]; unfold UINT_MODULUS; lia |].
  rewrite Hl85 in Hadv1. change (85 / 5)%nat with 17%nat in Hadv1. cbn [move_queue] in Hadv1.
  assert (Hlive : live q = entries q) by (unfold live; rewrite Hpos; reflexivity).
  destruct (advance_live (entries q) q Hinv Hlive Hall) as (qd & Hadv & Hinvd & Hnd & Hpd).
  assert (Hsum0 : 0 <= sum_counts (entries q)).
  { clear -Hall. induction Hall as [|e l He Hl IHl]; unfold sum_counts in *;
      simpl; unfold count_ok in *; lia. }
  destruct (advance_drained (17 - Z.to_nat (sum_counts (entries q))) qd Hinvd)
    as (qe & Hadve & Hinve & Hpe & _); [congruence|].
  assert (Hqe : move_queue sk1 = qe).
  { replace 17%nat
      with (Z.to_nat (sum_counts (entries q)) + (17 - Z.to_nat (sum_counts (entries q))))%nat
      in Hadv1 by lia.
    rewrite advance_add, Hadv in Hadv1. cbn [bind] in Hadv1. congruence. }
  assert (Hneutral : gc_status sk1 = initial_gc_status).
  { rewrite MoveQueue_get_status_drained in Hg1 by (rewrite Hqe; lia). congruence. }
  destruct (idle_polls_drained (skipn 85 cmds) sk1 Hinv1)
    as (out2 & sk2 & Hrun2 & _ & Hp2 & Hg2); [rewrite Hqe; exact Hpe | exact Hneutral |].
  exists (respond c0 (gc_status sk0) ++ out1 ++ out2), sk2.
  split; [|split; assumption].
  cbn [run_loop]. rewrite Hpass. cbn [bind snd fst].
  rewrite Hsplit. unfold idle_polls. rewrite map_app. fold (idle_polls (firstn 85 cmds)).
  fold (idle_polls (skipn 85 cmds)).
  rewrite run_loop_app, Hrun1. cbn [bind snd fst]. rewrite Hrun2. reflexivity.
Qed.

(** The longest move, 0x39 (five steps right with fast drop), and 90 read
    commands. *)
Lemma move_played_out_after_85_polls_witness :
  exists out sk',
    run_loop ((0x40, Some 0x39) :: idle_polls (repeat 0x40 90))
             (mkSketch initial_gc_status move_queue_bss 0) = Some (out, sk') /\
    gc_status sk' = initial_gc_status /\
    pos (move_queue sk') = n (move_queue sk').
Proof.
  apply (move_played_out_after_85_polls (mkSketch initial_gc_status move_queue_bss 0)
           0x40 0x39 (repeat 0x40 90)).
  - reflexivity.
  - cbn [repeat length]. lia.
Defined.

(** X12: a repeat count of 0 is not "no poll": [MoveQueue_next] decrements the
    [unsigned int] before it tests it, so the count wraps to 65535 with the
    cursor still on the entry, and the cursor moves on only with the 65536th
    call. *)
Theorem count_zero_plays_65536_times (mq : MoveQueue) (s : Slot) (rest : list Slot) :
  queue_inv mq -> live mq = s :: rest -> count s = 0 ->
  exists held mq',
    advance 1 mq = Some held /\ pos held = pos mq /\
    live held = mkSlot (status s) (UINT_MODULUS - 1) :: rest /\
    advance (Z.to_nat UINT_MODULUS) mq = Some mq' /\
    n mq' = n mq /\ pos mq' = pos mq + 1 /\ live mq' = rest.
Proof.
  intros Hinv Hlive Hc.
  destruct (MoveQueue_next_playing mq s rest Hinv Hlive)
    as (mq1 & g & Hnext & Hinv1 & Hn1 & Hcase).
  rewrite Hc in Hcase. change ((0 - 1) mod UINT_MODULUS) with 65535 in Hcase.
  change (65535 =? 0) with false in Hcase. destruct Hcase as [Hp1 Hl1].
  destruct (advance_entry (Z.to_nat 65534) mq1 _ rest Hinv1 Hl1)
    as (mq2 & Hadv & Hinv2 & Hn2 & Hp2 & Hl2);
    [cbn [count]; lia | cbn [count]; unfold UINT_MODULUS; lia |].
  exists mq1, mq2.
  split; [cbn [advance]; rewrite Hnext; reflexivity|].
  split; [assumption|]. split; [exact Hl1|]. split.
  - replace (Z.to_nat UINT_MODULUS) with (1 + S (Z.to_nat 65534))%nat
      by (unfold UINT_MODULUS; lia).
    rewrite advance_add. cbn [advance]. rewrite Hnext. cbn [bind fst]. exact Hadv.
  - split; [congruence|]. split; [congruence | assumption].
Qed.

(** A queue of one neutral entry with repeat count 0. *)
Lemma count_zero_plays_65536_times_witness :
  exists held mq',
    advance 1 (mkMoveQueue (repeat (mkSlot initial_gc_status 0) 10) 1 0) = Some held /\
    pos held = 0 /\
    live held = [mkSlot initial_gc_status 65535] /\
    advance (Z.to_nat UINT_MODULUS)
            (mkMoveQueue (repeat (mkSlot initial_gc_status 0) 10) 1 0) = Some mq' /\
    n mq' = 1 /\ pos mq' = 0 + 1 /\ live mq' = [].
Proof.
  apply (count_zero_plays_65536_times
           (mkMoveQueue (repeat (mkSlot initial_gc_status 0) 10) 1 0)
           (mkSlot initial_gc_status 0) []).
  - split; [reflexivity|]. cbn [pos n]. unfold MOVE_QUEUE_MAX. lia.
  - reflexivity.
  - reflexivity.
Defined.

(** X13: bits 6 and 7 of a move code play no part: a byte and its low six
    bits build the same queue. *)
Theorem move_code_high_bits_ignored (mq : MoveQueue) (b : Z) :
  on_move_code mq b = on_move_code mq (Z.land b 0x3f).
Proof.
  unfold on_move_code, decode_delta_x, decode_rot, decode_down_fast.
  rewrite <- !Z.land_assoc.
  change (Z.land 0x3f 0x38) with 0x38.
  change (Z.land 0x3f 0x06) with 0x06.
  change (Z.land 0x3f 0x01) with 0x01.
  reflexivity.
Qed.

(** * [gc_get] writes [from_gc] and nothing else *)

Lemma land_7_nonzero (c : Z) : 1 <= c <= 7 -> Z.land c 7 <> 0.
Proof.
  intros H.
  assert (E : c = 1 \/ c = 2 \/ c = 3 \/ c = 4 \/ c = 5 \/ c = 6 \/ c = 7) by lia.
  destruct E as [->|[->|[->|[->|[->|[->| ->]]]]]]; discriminate.
Qed.

Lemma ram_store_other (m : Z -> Z) (v a : Z) : a <> 0 -> ram_store m 0 v a = m a.
Proof.
  intros H. unfold ram_store. destruct (Z.eqb_spec a 0); [contradiction | reflexivity].
Qed.

Lemma receive_inv_step (line : nat -> bool) (regs s : Avr) :
  receive_inv regs s -> receive_inv regs (avr_step line s).
Proof.
  intros (Hz & Hram & Hpc). unfold receive_inv, avr_step.
  destruct (pc s) eqn:Epc.
  - cbn [pc zreg ram retval r25]. repeat split; try assumption; lia.
  - cbn [pc zreg ram retval r25]. repeat split; try assumption; apply Hpc.
  - destruct (line (reads s)).
    + replace (if (r24 s - 1) mod 256 =? 0 then L_1 else L_1) with L_1
        by (destruct ((r24 s - 1) mod 256 =? 0); reflexivity).
      cbn [pc zreg ram retval r25]. repeat split; try assumption; apply Hpc.
    + cbn [pc zreg ram retval r25]. repeat split; try assumption; apply Hpc.
  - destruct Hpc as (Hret & Hcnt).
    assert (Hc : (r25 s + 1) mod 256 = r25 s + 1) by (apply Z.mod_small; lia).
    rewrite Hc. cbv zeta. rewrite Hz.
    destruct (Z.eqb_spec (r25 s + 1) 8) as [E8|E8].
    + cbn [pc zreg ram retval r25]. split; [reflexivity|]. split.
      * intros a Ha. rewrite ram_store_other by assumption. apply Hram; assumption.
      * left. split; assumption.
    + destruct (Z.eqb_spec (Z.land (r25 s + 1) 7) 0) as [E0|E0].
      * exfalso. apply (land_7_nonzero (r25 s + 1)); [lia | assumption].
      * cbn [pc zreg ram retval r25]. split; [reflexivity|]. split.
        -- intros a Ha. rewrite ram_store_other by assumption. apply Hram; assumption.
        -- split; [assumption | lia].
  - cbn [pc zreg ram retval r25]. repeat split; try assumption; apply Hpc.
  - destruct (line (reads s)).
    + cbn [pc zreg ram retval r25]. repeat split; try assumption; try apply Hpc; lia.
    + cbv zeta. destruct ((r24 s - 1) mod 256 =? 0);
        cbn [pc zreg ram retval r25].
      * split; [assumption|]. split; [assumption|]. right. split; [reflexivity | apply Hpc].
      * repeat split; try assumption; apply Hpc.
  - rewrite Epc. repeat split; assumption.
Qed.

Lemma receive_inv_steps (line : nat -> bool) (regs : Avr) (k : nat) :
  forall s, receive_inv regs s -> receive_inv regs (avr_steps line k s).
Proof.
  induction k as [|k IH]; intros s H; [exact H|].
  cbn [avr_steps]. apply IH, receive_inv_step, H.
Qed.

Lemma avr_run_reaches (line : nat -> bool) (fuel : nat) :
  forall s s', avr_run line fuel s = Some s' ->
               at_exit s' = true /\ exists k, s' = avr_steps line k s.
Proof.
  induction fuel as [|fuel IH]; intros s s' H; cbn [avr_run] in H;
    destruct (at_exit s) eqn:E.
  - injection H as <-. split; [assumption | exists 0%nat; reflexivity].
  - discriminate.
  - injection H as <-. split; [assumption | exists 0%nat; reflexivity].
  - destruct (IH _ _ H) as (Hex & k & Hk). split; [assumption|].
    exists (S k). exact Hk.
Qed.

(** X14: [gc_get] was written to fill a buffer of several bytes; as it stands
    it leaves after 8 bits, and on whatever line and from whatever register
    contents, at no point of its execution has the Z pointer left [from_gc]
    or has a byte other than [from_gc] been written.  When it returns, it
    returns 1 with exactly 8 bits sampled, or 0 with 1 to 7 bits sampled
    (the time-out of the wait for the rising edge). *)
Theorem gc_get_writes_from_gc_only (line : nat -> bool) (regs : Avr) :
  (forall k, zreg (avr_steps line k (gc_get_entry regs)) = 0 /\
             forall a, a <> 0 ->
                       ram (avr_steps line k (gc_get_entry regs)) a = ram regs a) /\
  (forall fuel s,
      avr_run line fuel (gc_get_entry regs) = Some s ->
      (retval s = 1 /\ r25 s = 8) \/ (retval s = 0 /\ 1 <= r25 s <= 7)).
Proof.
  assert (H : forall k, receive_inv regs (avr_steps line k (gc_get_entry regs))).
  { intros k. apply receive_inv_steps. unfold receive_inv, gc_get_entry.
    cbn [pc zreg ram]. auto. }
  split.
  - intros k. destruct (H k) as (Hz & Hram & _). split; assumption.
  - intros fuel s Hrun. destruct (avr_run_reaches line fuel _ _ Hrun) as (Hex & k & ->).
    destruct (H k) as (_ & _ & Hpc). unfold at_exit in Hex.
    destruct (pc (avr_steps line k (gc_get_entry regs))); try discriminate. exact Hpc.
Qed.

(** * The responses on the wire *)

Lemma bytes_from_nth (buf : list Z) :
  forall pre,
    bytes_from (fun a => nth (Z.to_nat a) (pre ++ buf) 0) (Z.of_nat (length pre))
               (length buf) = buf.
Proof.
  induction buf as [|x t IH]; intros pre; cbn [length bytes_from]; [reflexivity|].
  rewrite Nat2Z.id, nth_middle. f_equal.
  replace (pre ++ x :: t) with ((pre ++ [x]) ++ t) by (rewrite <- app_assoc; reflexivity).
  replace (Z.of_nat (length pre) + 1) with (Z.of_nat (length (pre ++ [x])))
    by (rewrite length_app; cbn [length]; lia).
  apply IH.
Qed.

Lemma allowed_buffer_length (buf : list Z) :
  allowed_buffer buf -> (1 <= length buf <= 10)%nat.
Proof.
  intros [->|[->|(g & _ & ->)]];
    cbn [length identify_response origin_response gc_status_bytes]; lia.
Qed.

Lemma gc_send_buffer_wave (buf : list Z) (fuel : nat) :
  (1 <= length buf <= 255)%nat -> (26 * length buf + 2 <= fuel)%nat ->
  gc_send_buffer buf fuel = Some (pulse_train 5 (flat_map byte_bits buf ++ [true])).
Proof.
  intros Hlen Hfuel. unfold gc_send_buffer.
  pose proof (gc_send_bytes (fun a => nth (Z.to_nat a) buf 0) (length buf - 1) fuel) as H.
  replace (S (length buf - 1)) with (length buf) in H by lia.
  rewrite Z.mod_small in H by lia.
  rewrite H by lia. pose proof (bytes_from_nth buf []) as Hb.
  cbn [app length] in Hb. change (Z.of_nat 0) with 0 in Hb. rewrite Hb. reflexivity.
Qed.

(** X15: [loop] never calls [gc_send] with a length it is not written for:
    from [setup] on, whatever the console and the host send, every buffer
    handed to [gc_send] has 3, 8 or 10 bytes, and [gc_send] puts it on the
    line whole (262 blocks of the routine are enough): its bytes in order,
    most significant bit first, 64 cycles a bit from cycle 5 on, and the stop
    bit. *)
Theorem sketch_responses_on_the_wire (inputs : list (Z * option Z)) :
  exists start out sk,
    setup = Some start /\ run_loop inputs start = Some (out, sk) /\
    Forall (fun buf =>
              (length buf = 3 \/ length buf = 8 \/ length buf = 10)%nat /\
              gc_send_buffer buf 262
              = Some (pulse_train 5 (flat_map byte_bits buf ++ [true])))
           (sent out).
Proof.
  destruct setup_inv as (start & Hsetup & Hinv).
  destruct (run_loop_inv inputs start Hinv) as (out & sk & Hrun & _ & Hall).
  exists start, out, sk. split; [exact Hsetup|]. split; [exact Hrun|].
  apply (Forall_impl _ (P := allowed_buffer)); [|exact Hall].
  intros buf Hbuf. pose proof (allowed_buffer_length buf Hbuf) as Hl. split.
  - destruct Hbuf as [->|[->|(g & _ & ->)]];
      cbn [length identify_response origin_response gc_status_bytes]; auto.
  - apply gc_send_buffer_wave; lia.
Qed.

(** * Transmitting and receiving on one clock *)

Section TimedBits.

Variable wave : Z -> bool.

Lemma timed_steps_add (a b : nat) (s : Timed) :
  timed_steps wave (a + b) s = timed_steps wave b (timed_steps wave a s).
Proof.
  revert s; induction a as [|a IH]; intros s; cbn [Nat.add timed_steps];
    [reflexivity | apply IH].
Qed.

Lemma timed_exit_stable (k : nat) :
  forall s, at_exit (core s) = true -> timed_steps wave k s = s.
Proof.
  induction k as [|k IH]; intros s H; cbn [timed_steps]; [reflexivity|].
  assert (Hs : timed_step wave s = s).
  { destruct s as [a c]. cbn [core] in H. unfold at_exit in H.
    unfold timed_step, block_cycles, avr_step. cbn [core cycle].
    destruct (pc a); try discriminate H. rewrite Z.add_0_r. reflexivity. }
  rewrite Hs. apply IH. assumption.
Qed.

Lemma timed_run_reaches (k : nat) :
  forall s fuel,
    at_exit (core (timed_steps wave k s)) = true -> (k <= fuel)%nat ->
    timed_run wave fuel s = Some (timed_steps wave k s).
Proof.
  induction k as [|k IH]; intros s fuel Hex Hfuel.
  - cbn [timed_steps] in *. destruct fuel; cbn [timed_run]; rewrite Hex; reflexivity.
  - destruct fuel as [|fuel]; [lia|]. cbn [timed_run].
    destruct (at_exit (core s)) eqn:E.
    + rewrite (timed_exit_stable (S k) s E). reflexivity.
    + cbn [timed_steps] in *. apply IH; [assumption | lia].
Qed.

Lemma timed_step_L_1_high x r k ret z m rd c :
  wave c = true ->
  exists d, 5 <= d <= 7 /\
    timed_step wave (mkTimed (mkAvr L_1 x r k ret z m rd) c)
    = mkTimed (mkAvr L_1 x ((r - 1) mod 256) k ret z m (S rd)) (c + d).
Proof.
  intros H. unfold timed_step, read_offset, block_cycles, avr_step.
  cbn [core cycle pc r23 r24 r25 retval zreg ram reads].
  rewrite Z.add_0_r, H.
  destruct ((r - 1) mod 256 =? 0); eexists; (split; [|reflexivity]); lia.
Qed.

Lemma timed_step_L_1_low x r k ret z m rd c :
  wave c = false ->
  timed_step wave (mkTimed (mkAvr L_1 x r k ret z m rd) c)
  = mkTimed (mkAvr L_2 x r k ret z m (S rd)) (c + 3).
Proof.
  intros H. unfold timed_step, read_offset, block_cycles, avr_step.
  cbn [core cycle pc r23 r24 r25 retval zreg ram reads].
  rewrite Z.add_0_r, H. reflexivity.
Qed.

Lemma timed_step_L_2 x r k ret m rd c :
  0 <= k < 7 ->
  timed_step wave (mkTimed (mkAvr L_2 x r k ret 0 m rd) c)
  = mkTimed (mkAvr L_3 (shift_in x (wave (c + 31))) (Z.land (k + 1) 7) (k + 1) ret 0
                   (ram_store m 0 (shift_in x (wave (c + 31)))) (S rd))
            (c + 42).
Proof.
  intros Hk. unfold timed_step, read_offset, block_cycles, avr_step.
  cbn [core cycle pc r23 r24 r25 retval zreg ram reads]. cbv zeta.
  change (30 + 1) with 31.
  rewrite (Z.mod_small (k + 1) 256) by lia.
  destruct (Z.eqb_spec (k + 1) 8) as [E|_]; [lia|].
  destruct (Z.eqb_spec (Z.land (k + 1) 7) 0) as [E|_].
  - exfalso. apply (land_7_nonzero (k + 1)); [lia | assumption].
  - reflexivity.
Qed.

Lemma timed_step_L_2_last x r ret m rd c :
  timed_step wave (mkTimed (mkAvr L_2 x r 7 ret 0 m rd) c)
  = mkTimed (mkAvr L_exit (shift_in x (wave (c + 31))) r 8 ret 0
                   (ram_store m 0 (shift_in x (wave (c + 31)))) (S rd))
            (c + 39).
Proof.
  unfold timed_step, read_offset, block_cycles, avr_step.
  cbn [core cycle pc r23 r24 r25 retval zreg ram reads]. reflexivity.
Qed.

Lemma timed_step_L_3 x r k ret z m rd c :
  timed_step wave (mkTimed (mkAvr L_3 x r k ret z m rd) c)
  = mkTimed (mkAvr L_4 x 64 k ret z m rd) (c + 1).
Proof. reflexivity. Qed.

Lemma timed_step_L_4_high x r k ret z m rd c :
  wave c = true ->
  timed_step wave (mkTimed (mkAvr L_4 x r k ret z m rd) c)
  = mkTimed (mkAvr L_read_loop x r k ret z m (S rd)) (c + 3).
Proof.
  intros H. unfold timed_step, read_offset, block_cycles, avr_step.
  cbn [core cycle pc r23 r24 r25 retval zreg ram reads].
  rewrite Z.add_0_r, H. reflexivity.
Qed.

Lemma timed_step_L_4_low x k ret z m rd c :
  wave c = false ->
  timed_step wave (mkTimed (mkAvr L_4 x 64 k ret z m rd) c)
  = mkTimed (mkAvr L_4 x 63 k ret z m (S rd)) (c + 5).
Proof.
  intros H. unfold timed_step, read_offset, block_cycles, avr_step.
  cbn [core cycle pc r23 r24 r25 retval zreg ram reads].
  rewrite Z.add_0_r, H. reflexivity.
Qed.

Lemma timed_step_read_loop x r k ret z m rd c :
  timed_step wave (mkTimed (mkAvr L_read_loop x r k ret z m rd) c)
  = mkTimed (mkAvr L_1 x 64 k ret z m rd) (c + 1).
Proof. reflexivity. Qed.

(** The wait for the falling edge at cycle [E]: the read that ends it comes
    less than 14 cycles after the edge, whenever the wait was entered. *)
Lemma timed_wait_falling (E : Z) (n : nat) :
  forall x r k ret z m rd c,
    E - c <= 5 * Z.of_nat n -> c < E + 14 ->
    (forall t, c <= t < E -> wave t = true) ->
    exists j r' rd' c',
      (j <= n)%nat /\
      timed_steps wave j (mkTimed (mkAvr L_1 x r k ret z m rd) c)
      = mkTimed (mkAvr L_1 x r' k ret z m rd') c' /\
      E <= c' < E + 14.
Proof.
  induction n as [|n IH]; intros x r k ret z m rd c Hn Hc Hhigh.
  - exists 0%nat, r, rd, c. split; [lia|]. split; [reflexivity | lia].
  - destruct (Z.le_gt_cases E c) as [Hge|Hlt].
    + exists 0%nat, r, rd, c. split; [lia|]. split; [reflexivity | lia].
    + destruct (timed_step_L_1_high x r k ret z m rd c (Hhigh c ltac:(lia)))
        as (d & Hd & Hstep).
      destruct (IH x ((r - 1) mod 256) k ret z m (S rd) (c + d))
        as (j & r' & rd' & c' & Hj & Hrun & Hc'); [lia | lia | |].
      { intros t Ht. apply Hhigh. lia. }
      exists (S j), r', rd', c'. split; [lia|]. split; [|assumption].
      cbn [timed_steps]. rewrite Hstep. exact Hrun.
Qed.

(** One bit [b] whose cell starts at [E]: from the read that found the line
    low to the top of the next wait. *)
Lemma timed_bit (E : Z) (b : bool) x r k m rd c :
  0 <= k < 7 -> E <= c < E + 14 ->
  (forall t, E <= t < E + 64 -> wave t = negb (t <? E + (if b then 16 else 48))) ->
  exists j r' rd' c',
    (j <= 6)%nat /\
    timed_steps wave j (mkTimed (mkAvr L_1 x r k 1 0 m rd) c)
    = mkTimed (mkAvr L_1 (shift_in x b) r' (k + 1) 1 0
                     (ram_store m 0 (shift_in x b)) rd') c' /\
    E + 50 <= c' < E + 64 + 14.
Proof.
  intros Hk Hc Hcell.
  assert (H1 : wave c = false).
  { rewrite Hcell by lia. destruct b; destruct (Z.ltb_spec c (E + 16));
      destruct (Z.ltb_spec c (E + 48)); try reflexivity; lia. }
  assert (H2 : wave (c + 3 + 31) = b).
  { rewrite Hcell by lia.
    destruct b; [destruct (Z.ltb_spec (c + 3 + 31) (E + 16))
                | destruct (Z.ltb_spec (c + 3 + 31) (E + 48))];
      try reflexivity; lia. }
  assert (Hpre : timed_steps wave 3 (mkTimed (mkAvr L_1 x r k 1 0 m rd) c)
                 = mkTimed (mkAvr L_4 (shift_in x b) 64 (k + 1) 1 0
                                  (ram_store m 0 (shift_in x b)) (S (S rd)))
                           (c + 46)).
  { cbn [timed_steps]. rewrite (timed_step_L_1_low _ _ _ _ _ _ _ _ H1).
    rewrite (timed_step_L_2 _ _ _ _ _ _ _ Hk), H2, timed_step_L_3.
    f_equal. lia. }
  destruct (wave (c + 46)) eqn:H4.
  - exists 5%nat. eexists _, _, _. split; [lia|]. split.
    + change 5%nat with (3 + 2)%nat. rewrite timed_steps_add, Hpre.
      cbn [timed_steps]. rewrite (timed_step_L_4_high _ _ _ _ _ _ _ _ H4).
      rewrite timed_step_read_loop. reflexivity.
    + lia.
  - assert (Hb : c + 46 < E + 48 /\ b = false).
    { rewrite Hcell in H4 by lia.
      destruct b; [destruct (Z.ltb_spec (c + 46) (E + 16))
                  | destruct (Z.ltb_spec (c + 46) (E + 48))];
        try discriminate H4; split; try reflexivity; lia. }
    destruct Hb as [Hlt ->].
    assert (H5 : wave (c + 46 + 5) = true).
    { rewrite Hcell by lia. destruct (Z.ltb_spec (c + 46 + 5) (E + 48));
        [lia | reflexivity]. }
    exists 6%nat. eexists _, _, _. split; [lia|]. split.
    + change 6%nat with (3 + 3)%nat. rewrite timed_steps_add, Hpre.
      cbn [timed_steps]. rewrite (timed_step_L_4_low _ _ _ _ _ _ _ H4).
      rewrite (timed_step_L_4_high _ _ _ _ _ _ _ _ H5).
      rewrite timed_step_read_loop. reflexivity.
    + lia.
Qed.

(** The eighth bit: [gc_get] leaves right after the sample. *)
Lemma timed_last_bit (E : Z) (b : bool) x r m rd c :
  E <= c < E + 14 ->
  (forall t, E <= t < E + 64 -> wave t = negb (t <? E + (if b then 16 else 48))) ->
  exists s,
    timed_steps wave 2 (mkTimed (mkAvr L_1 x r 7 1 0 m rd) c) = s /\
    at_exit (core s) = true /\ retval (core s) = 1 /\
    ram (core s) 0 = shift_in x b.
Proof.
  intros Hc Hcell.
  assert (H1 : wave c = false).
  { rewrite Hcell by lia. destruct b; destruct (Z.ltb_spec c (E + 16));
      destruct (Z.ltb_spec c (E + 48)); try reflexivity; lia. }
  assert (H2 : wave (c + 3 + 31) = b).
  { rewrite Hcell by lia.
    destruct b; [destruct (Z.ltb_spec (c + 3 + 31) (E + 16))
                | destruct (Z.ltb_spec (c + 3 + 31) (E + 48))];
      try reflexivity; lia. }
  eexists. split; [reflexivity|].
  cbn [timed_steps]. rewrite (timed_step_L_1_low _ _ _ _ _ _ _ _ H1).
  rewrite timed_step_L_2_last, H2. cbn [core at_exit pc retval ram].
  repeat split.
Qed.

End TimedBits.

Lemma firstn_snoc_nth {A : Type} (l : list A) :
  forall j x, nth_error l j = Some x -> firstn (S j) l = firstn j l ++ [x].
Proof.
  induction l as [|h t IH]; intros [|j] x H; try discriminate H.
  - injection H as ->. reflexivity.
  - cbn [nth_error] in H. change (firstn (S (S j)) (h :: t)) with (h :: firstn (S j) t).
    rewrite (IH j x H). reflexivity.
Qed.

Section TimedByte.

Variable wave : Z -> bool.
Variable bits : list bool.
Variable start : Z.
Variable regs : Avr.

Hypothesis wave_idle : forall t, t < 5 -> wave t = true.
Hypothesis wave_cell :
  forall j b, nth_error bits j = Some b ->
    forall t, 5 + 64 * Z.of_nat j <= t < 5 + 64 * Z.of_nat j + 64 ->
      wave t = negb (t <? 5 + 64 * Z.of_nat j + (if b then 16 else 48)).
Hypothesis eight_bits : (8 <= length bits)%nat.
Hypothesis in_time : start <= 15.

(** The read that ends the wait for the falling edge of bit [j]. *)
Lemma timed_reach_bit (j : nat) :
  (j <= 7)%nat ->
  exists n r rd c m,
    (n <= Z.to_nat (5 - start) + 2 + 9 * j)%nat /\
    timed_steps wave n (mkTimed (gc_get_entry regs) start)
    = mkTimed (mkAvr L_1 (fold_left shift_in (firstn j bits) (r23 regs)) r
                     (Z.of_nat j) 1 0 m rd) c /\
    5 + 64 * Z.of_nat j <= c < 5 + 64 * Z.of_nat j + 14.
Proof.
  induction j as [|j IH]; intros Hj.
  - destruct (timed_wait_falling wave 5 (Z.to_nat (5 - start))
                (r23 regs) 64 0 1 0 (ram regs) 0%nat (start + 2 + 1))
      as (n & r & rd & c & Hn & Hrun & Hc); [lia | lia | |].
    { intros t Ht. apply wave_idle. lia. }
    exists (2 + n)%nat, r, rd, c, (ram regs). split; [lia|]. split; [|exact Hc].
    rewrite timed_steps_add. exact Hrun.
  - destruct (IH ltac:(lia)) as (n & r & rd & c & m & Hn & Hrun & Hc).
    destruct (nth_error bits j) as [b|] eqn:Hb;
      [|apply nth_error_None in Hb; lia].
    destruct (timed_bit wave (5 + 64 * Z.of_nat j) b
                (fold_left shift_in (firstn j bits) (r23 regs)) r (Z.of_nat j) m rd c)
      as (n1 & r1 & rd1 & c1 & Hn1 & Hrun1 & Hc1); [lia | exact Hc | |].
    { intros t Ht. apply (wave_cell j b Hb). exact Ht. }
    destruct (timed_wait_falling wave (5 + 64 * Z.of_nat (S j)) 3
                (shift_in (fold_left shift_in (firstn j bits) (r23 regs)) b) r1
                (Z.of_nat j + 1) 1 0
                (ram_store m 0 (shift_in (fold_left shift_in (firstn j bits) (r23 regs)) b))
                rd1 c1)
      as (n2 & r2 & rd2 & c2 & Hn2 & Hrun2 & Hc2); [lia | lia | |].
    { intros t Ht. rewrite (wave_cell j b Hb) by lia.
      destruct b; [destruct (Z.ltb_spec t (5 + 64 * Z.of_nat j + 16))
                  | destruct (Z.ltb_spec t (5 + 64 * Z.of_nat j + 48))];
        try reflexivity; lia. }
    exists (n + n1 + n2)%nat, r2, rd2, c2. eexists. split; [lia|]. split; [|exact Hc2].
    rewrite !timed_steps_add, Hrun, Hrun1, Hrun2.
    rewrite (firstn_snoc_nth bits j b Hb), fold_left_app. cbn [fold_left].
    replace (Z.of_nat (S j)) with (Z.of_nat j + 1) by lia. reflexivity.
Qed.

Lemma timed_byte (fuel : nat) :
  (Z.to_nat (5 - start) + 67 <= fuel)%nat ->
  gc_get_timed wave start fuel regs = Some (1, byte_of_bits (firstn 8 bits)).
Proof.
  intros Hfuel.
  destruct (timed_reach_bit 7 ltac:(lia)) as (n & r & rd & c & m & Hn & Hrun & Hc).
  destruct (nth_error bits 7) as [b|] eqn:Hb;
    [|apply nth_error_None in Hb; lia].
  destruct (timed_last_bit wave (5 + 64 * Z.of_nat 7) b
              (fold_left shift_in (firstn 7 bits) (r23 regs)) r m rd c Hc)
    as (s & Hs & Hex & Hret & Hram).
  { intros t Ht. apply (wave_cell 7 b Hb). exact Ht. }
  assert (Hend : timed_steps wave (n + 2) (mkTimed (gc_get_entry regs) start) = s)
    by (rewrite timed_steps_add, Hrun; exact Hs).
  unfold gc_get_timed.
  rewrite (timed_run_reaches wave (n + 2)), Hend, Hret, Hram;
    [|rewrite Hend; exact Hex | lia].
  do 2 f_equal.
  change (shift_in (fold_left shift_in (firstn 7 bits) (r23 regs)) b)
    with (fold_left shift_in [b] (fold_left shift_in (firstn 7 bits) (r23 regs))).
  rewrite <- fold_left_app, <- (firstn_snoc_nth bits 7 b Hb).
  destruct bits as [|b7 [|b6 [|b5 [|b4 [|b3 [|b2 [|b1 [|b0 rest]]]]]]]];
    cbn [length] in eight_bits; try lia.
  cbn [firstn]. apply shift_in_byte.
Qed.

End TimedByte.

(** X8: what [gc_send] puts on the line, [gc_get] takes off it, each routine
    running at its own instruction timing on the same 16 MHz clock.  Cycles
    are counted from the first instruction of [gc_send]; [gc_get] is entered
    at cycle [start], any time before that or up to 15 cycles after it, and
    reads the level the wave form of [gc_send] has at the cycle of each of
    its reads of the pin.  For a buffer of 1 to 255 bytes [gc_get] returns 1
    and leaves the first byte of the buffer in [from_gc], within 67 blocks
    and the blocks of its wait for the first falling edge. *)
Theorem gc_send_gc_get_loopback
  (buffer : Z -> Z) (length start : Z) (fuel : nat) (regs : Avr) :
  1 <= length <= 255 -> 0 <= buffer 0 < 256 ->
  start <= 15 -> (Z.to_nat (5 - start) + 67 <= fuel)%nat ->
  exists w,
    gc_send buffer length (26 * Z.to_nat length + 2) = Some w /\
    gc_get_timed (fun t => level_at w t true) start fuel regs = Some (1, buffer 0).
Proof.
  intros Hlen Hx Hstart Hfuel.
  pose proof (gc_send_bytes buffer (Z.to_nat length - 1) (26 * Z.to_nat length + 2)) as Hw.
  replace (S (Z.to_nat length - 1)) with (Z.to_nat length) in Hw by lia.
  rewrite Z2Nat.id, Z.mod_small in Hw by lia.
  specialize (Hw ltac:(lia) ltac:(lia)).
  destruct (Z.to_nat length) as [|m] eqn:Em; [lia|].
  cbn [bytes_from flat_map] in Hw. rewrite <- app_assoc in Hw.
  eexists. split; [exact Hw|].
  set (rest := flat_map byte_bits (bytes_from buffer (0 + 1) m) ++ [true]).
  rewrite (timed_byte _ (byte_bits (buffer 0) ++ rest)); try assumption.
  - do 2 f_equal. exact (byte_of_byte_bits (buffer 0) Hx).
  - intros t Ht. apply level_at_before. exact Ht.
  - intros j b Hb t Ht. apply (level_at_pulse_train _ 5 j b t true Hb Ht).
  - rewrite length_app. cbn [byte_bits map List.length]. lia.
Qed.

(** A controller state of eight bytes with X pressed and the stick to the
    right, and [gc_get] entered 100 cycles before [gc_send]. *)
Lemma gc_send_gc_get_loopback_witness :
  exists w,
    gc_send (fun a => nth (Z.to_nat a)
                        (gc_status_bytes (mkGCStatus 4 0 255 128 128 128 0 0)) 0)
            8 (26 * Z.to_nat 8 + 2) = Some w /\
    gc_get_timed (fun t => level_at w t true) (-100) 200 power_on_regs = Some (1, 4).
Proof.
  apply (gc_send_gc_get_loopback
           (fun a => nth (Z.to_nat a)
                       (gc_status_bytes (mkGCStatus 4 0 255 128 128 128 0 0)) 0)
           8 (-100) 200 power_on_regs).
  - lia.
  - vm_compute. split; [discriminate | reflexivity].
  - lia.
  - lia.
Defined.
